(** * Task Vantage: the delegated-authentication tool-dispatch gateway

    A shallow embedding of the gateway's JavaScript sources and the
    properties its specification states about them:

    - [Js]: the fragment of JavaScript values and string primitives the
      sources rely on (truthiness, optional chaining, [trim], [slice],
      [repeat], [split], [Set] de-duplication);
    - [Eff]: computations over a world, with exceptions, for the code
      that logs, calls out and catches;
    - [Agent]: [extractResponseText], the response text normalizer;
    - [ApiAuth]: [authMiddleware] and [getAuth], the ingress verifier and
      the claims normalizer;
    - [McpServer]: [createSession] and the [tv_create_task] handler;
    - [McpClient]: the bridge returned by [createMCPClient]
      ([callTool], [getMetadata], [cleanup]).

    The modules whose names end in [Facts] hold the proofs. External
    services (the token verifier, the resource API, the SDK client,
    [JSON.parse], [Date.now]) are parameters of the code that calls them. *)

From Stdlib Require Import ZArith NArith Lia.
From Stdlib Require Import Strings.Ascii Strings.String.
From stdpp Require Import base option list gmap strings.

Set Warnings "-register-all,-clear-no-such-hyp".

(* ===================================================================== *)
(** * JavaScript values and string primitives *)
(* ===================================================================== *)

Module Js.

(** A JavaScript string is a sequence of UTF-16 code units; [length],
    [slice], [repeat] and [===] all work on code units. *)
Abbreviation jsstring := (list N).

(** Source literals are written as Rocq strings and read as code units. *)
Definition str (s : string) : jsstring :=
  List.map N_of_ascii (list_ascii_of_string s).

(** The code units [String.prototype.trim] strips: WhiteSpace and
    LineTerminator of ECMA-262 (all of them lie in the basic plane). *)
Definition is_white_space (c : N) : bool :=
  ((9 <=? c) && (c <=? 13) || (c =? 32) || (c =? 160) || (c =? 5760)
   || (8192 <=? c) && (c <=? 8202) || (c =? 8232) || (c =? 8233)
   || (c =? 8239) || (c =? 8287) || (c =? 12288) || (c =? 65279))%N.

Fixpoint trimStart (s : jsstring) : jsstring :=
  match s with
  | c :: s' => if is_white_space c then trimStart s' else s
  | [] => []
  end.

Definition trimEnd (s : jsstring) : jsstring := rev (trimStart (rev s)).

Definition trim (s : jsstring) : jsstring := trimEnd (trimStart s).

(** [s.slice(from, to)] and [s.slice(from)] for the non-negative integer
    arguments the sources pass. *)
Definition slice (s : jsstring) (from to : nat) : jsstring :=
  take (to - from) (drop from s).

Definition slice_from (s : jsstring) (from : nat) : jsstring := drop from s.

(** [s.repeat(count)]. *)
Fixpoint repeat (s : jsstring) (count : nat) : jsstring :=
  match count with
  | 0 => []
  | S k => s ++ repeat s k
  end.

(** [Math.ceil(a / b)] for non-negative integers [a] and positive [b]; the
    quotient of two integers below 2^53 is never rounded across an
    integer, so the result is the exact ceiling. For [b = 0] JavaScript
    yields [Infinity] (or [NaN]); no caller here divides by zero. *)
Definition ceil_div (a b : nat) : nat := (a + b - 1) / b.

(** [s.split(' ')]: the pieces between single space code units, empty
    pieces included. [cur] accumulates the current piece in reverse. *)
Fixpoint split_at (sep : N) (cur : jsstring) (s : jsstring) : list jsstring :=
  match s with
  | [] => [rev cur]
  | c :: s' =>
      if (c =? sep)%N then rev cur :: split_at sep [] s'
      else split_at sep (c :: cur) s'
  end.

Definition split (s : jsstring) (sep : N) : list jsstring := split_at sep [] s.

Definition SPACE : N := 32%N.

(** ** Values

    The values that reach the gateway are decoded JSON (token payloads,
    tool arguments, tool results), so an object is a finite map from
    property names to values and every number that occurs is an integer.
    [JFunction] stands for a built-in method found on a prototype. *)
Inductive value : Type :=
  | JUndefined
  | JNull
  | JBool (b : bool)
  | JNum (n : Z)
  | JStr (s : jsstring)
  | JArr (xs : list value)
  | JObj (props : gmap string value)
  | JFunction.

(** [ToBoolean]. *)
Definition truthy (v : value) : bool :=
  match v with
  | JUndefined | JNull => false
  | JBool b => b
  | JNum n => negb (n =? 0)%Z
  | JStr s => negb (bool_decide (s = []))
  | JArr _ | JObj _ | JFunction => true
  end.

(** [a || b] and [a && b]. *)
Definition js_or (a b : value) : value := if truthy a then a else b.
Definition js_and (a b : value) : value := if truthy a then b else a.

(** [typeof v === 'string'] and [Array.isArray(v)]. *)
Definition is_string (v : value) : bool :=
  match v with JStr _ => true | _ => false end.

Definition isArray (v : value) : bool :=
  match v with JArr _ => true | _ => false end.

(** [v.k] for the property names the sources read. An object yields its
    own property. On a primitive or an array the read goes to the
    prototype, and of the names read here only [sub] is defined there
    ([String.prototype.sub]). The sources apply a plain [.] only to values
    that are not [null] or [undefined], where it would throw. *)
Definition get (v : value) (k : string) : value :=
  match v with
  | JObj props => default JUndefined (props !! k)
  | JStr _ => if bool_decide (k = "sub") then JFunction else JUndefined
  | _ => JUndefined
  end.

(** [v?.k]. *)
Definition opt_get (v : value) (k : string) : value :=
  match v with
  | JUndefined | JNull => JUndefined
  | _ => get v k
  end.

(** [v?.[0]]. *)
Definition opt_get0 (v : value) : value :=
  match v with
  | JArr xs => default JUndefined (xs !! 0)
  | JObj props => default JUndefined (props !! "0")
  | JStr (c :: _) => JStr [c]
  | _ => JUndefined
  end.

(** [SameValueZero], the equality of [Set]. Primitives are compared by
    value; arrays and objects by reference, and each array or object of a
    decoded JSON text is a reference of its own. *)
Definition same_value_zero (a b : value) : bool :=
  match a, b with
  | JUndefined, JUndefined | JNull, JNull | JFunction, JFunction => true
  | JBool x, JBool y => bool_decide (x = y)
  | JNum x, JNum y => bool_decide (x = y)
  | JStr x, JStr y => bool_decide (x = y)
  | _, _ => false
  end.

(** The values [Set] compares by value. *)
Definition primitive (v : value) : Prop :=
  match v with JArr _ | JObj _ => False | _ => True end.

(** [[...new Set(xs)]]: the elements in order of first insertion. *)
Definition set_add (seen : list value) (v : value) : list value :=
  if existsb (same_value_zero v) seen then seen else seen ++ [v].

Definition new_Set (xs : list value) : list value := fold_left set_add xs [].

End Js.

(* ===================================================================== *)
(** * Effects: a world threaded through, and exceptions *)
(* ===================================================================== *)

Module Eff.
Section Eff.
Context {W X : Type}.

(** A computation over a world [W] that returns or throws an [X]. *)
Definition M (A : Type) : Type := W → W * (X + A).

Definition ret {A} (a : A) : M A := λ w, (w, inr a).

Definition bind {A B} (m : M A) (k : A → M B) : M B :=
  λ w, match m w with
       | (w', inr a) => k a w'
       | (w', inl x) => (w', inl x)
       end.

Definition throw {A} (x : X) : M A := λ w, (w, inl x).

(** [try { m } catch (x) { h x }]. *)
Definition try_catch {A} (m : M A) (h : X → M A) : M A :=
  λ w, match m w with
       | (w', inl x) => h x w'
       | r => r
       end.

Definition gets {A} (f : W → A) : M A := λ w, (w, inr (f w)).
Definition modify (f : W → W) : M unit := λ w, (f w, inr tt).
End Eff.
Arguments M : clear implicits.

#[global] Instance M_ret {W X} : MRet (M W X) := @ret W X.
#[global] Instance M_bind {W X} : MBind (M W X) := λ A B k m, bind m k.

End Eff.

(* ===================================================================== *)
(** * The agent: response text normalizer *)
(* ===================================================================== *)

Module Agent.
Import Js.

(** The loop [for (let len = 1; len <= text.length / 2; len++)] of
    [extractResponseText]. [todo] is the number of candidates still to be
    tried, [len] the current one; the loop returns from inside on the
    first match and falls through ([None]) when the candidates run out. *)
Fixpoint scan (text : jsstring) (len todo : nat) : option jsstring :=
  match todo with
  | 0 => None
  | S todo' =>
      let unit := slice text 0 len in
      let repeated :=
        slice (repeat unit (ceil_div (length text) len)) 0 (length text) in
      if bool_decide (repeated = text) then Some (trim unit)
      else scan text (S len) todo'
  end.

(** [extractResponseText] on a string content. For a string [response]
    every property read of the selection chain is [undefined], so the
    selected content is [String(response)], the response itself. *)
Definition extractResponseText (content : jsstring) : jsstring :=
  let text := trim content in
  match scan text 1 (length text / 2) with
  | Some unit => unit
  | None =>
      let half := length text / 2 in
      if bool_decide (50 < length text)
         && bool_decide (trim (slice text 0 half) = trim (slice_from text half))
      then trim (slice text 0 half)
      else text
  end.

End Agent.

(* ===================================================================== *)
(** * The normalizer as the specification words it *)
(* ===================================================================== *)

Module AgentSpec.
Import Js.

(** "Tile [unit] to the length of [T] and compare with [T] exactly":
    position [i] of [T] holds code unit [i mod len] of the unit. *)
Definition tiles_exactly (unit T : jsstring) : Prop :=
  ∀ i, i < length T → T !! i = unit !! (i mod length unit).

Definition no_tiling (T : jsstring) : Prop :=
  ∀ len, 1 ≤ len ≤ length T / 2 → ¬ tiles_exactly (take len T) T.

Definition equal_halves (T : jsstring) : Prop :=
  50 < length T ∧
  trim (take (length T / 2) T) = trim (drop (length T / 2) T).

(** The three outcomes of section 4.5 for a trimmed text [T]. *)
Inductive normalized (T : jsstring) : jsstring → Prop :=
  | by_tiling len :
      1 ≤ len ≤ length T / 2 →
      tiles_exactly (take len T) T →
      (∀ j, 1 ≤ j < len → ¬ tiles_exactly (take j T) T) →
      normalized T (trim (take len T))
  | by_halves :
      no_tiling T → equal_halves T →
      normalized T (trim (take (length T / 2) T))
  | unchanged :
      no_tiling T → ¬ equal_halves T →
      normalized T T.

End AgentSpec.


(* ===================================================================== *)
(** * The resource API: ingress verifier and claims normalizer *)
(* ===================================================================== *)

Module ApiAuth.
Import Js Eff.

(** The configuration the module reads from [env]. *)
Record Env := {
  AUTH_ENABLED : bool;
  API_AUTH0_AUDIENCE : jsstring;
  API_DEFAULT_ORG : value;
}.

(** The request context: the [Authorization] header as
    [context.req.header('authorization')] returns it, and the variables of
    [context.get] / [context.set]. *)
Record Context := {
  authorization : option jsstring;
  vars : gmap string value;
}.

Definition context_get (c : Context) (k : string) : value :=
  default JUndefined (vars c !! k).

Definition context_set (c : Context) (k : string) (v : value) : Context :=
  {| authorization := authorization c; vars := <[k := v]> (vars c) |}.

(** [context.json(body, status, headers)]. *)
Record Response := {
  body : value;
  status : Z;
  headers : gmap string jsstring;
}.

Inductive event :=
  | ConsoleLog (msg : string)
  | VerifyAccessToken (accessToken : jsstring)
  | Next (c : Context).

(** What the middleware hands back: a response of its own, or whatever
    the rest of the chain does with the context ([return next()]). *)
Inductive outcome :=
  | Respond (r : Response)
  | Downstream (c : Context).

Definition emit (e : event) : M (list event) value unit :=
  modify (λ t, t ++ [e]).

Definition lower (c : N) : N :=
  if ((65 <=? c) && (c <=? 90))%N then (c + 32)%N else c.

(** The remainder of [s] after the literal [lit], letters compared
    without regard to case. *)
Fixpoint after_prefix_ci (lit s : jsstring) : option jsstring :=
  match lit, s with
  | [], _ => Some s
  | a :: lit', c :: s' =>
      if (lower a =? lower c)%N then after_prefix_ci lit' s' else None
  | _ :: _, [] => None
  end.

(** [authHeader.replace(/^Bearer\s+/i, '')]. *)
Definition strip_bearer (authHeader : jsstring) : jsstring :=
  match after_prefix_ci (str "Bearer") authHeader with
  | Some (c :: rest) =>
      if is_white_space c then trimStart rest else authHeader
  | _ => authHeader
  end.

Definition QUOTE : N := 34%N.

(** [`Bearer resource="${env.API_AUTH0_AUDIENCE}"`]. *)
Definition challenge (env : Env) : jsstring :=
  str "Bearer resource=" ++ [QUOTE] ++ API_AUTH0_AUDIENCE env ++ [QUOTE].

Definition unauthorized (env : Env) (message : string) : Response :=
  {| body := JObj {[ "error" := JStr (str message) ]};
     status := 401;
     headers := {[ "WWW-Authenticate" := challenge env ]} |}.

Section Middleware.
Variable env : Env.
(** [apiClient.verifyAccessToken]: the verified payload, or the error
    the promise is rejected with. *)
Variable verify : jsstring → value + value.

Definition next (c : Context) : M (list event) value outcome :=
  emit (Next c);; mret (Downstream c).

Definition verifyAccessToken (accessToken : jsstring)
  : M (list event) value value :=
  emit (VerifyAccessToken accessToken);;
  match verify accessToken with
  | inl error => throw error
  | inr payload => mret payload
  end.

Definition authMiddleware (context : Context)
  : M (list event) value outcome :=
  if negb (AUTH_ENABLED env) then next context
  else
    let authHeader := default [] (authorization context) in
    let accessToken := trim (strip_bearer authHeader) in
    if bool_decide (accessToken = []) then
      emit (ConsoleLog "No access token provided");;
      mret (Respond (unauthorized env "Unauthorized: Missing access token"))
    else
      try_catch
        (emit (ConsoleLog "Verifying access token...");;
         decodedAndVerifiedToken ← verifyAccessToken accessToken;
         emit (ConsoleLog "Token verified successfully:");;
         next (context_set context "auth0Token" decodedAndVerifiedToken))
        (λ error,
         emit (ConsoleLog "Error verifying access token:");;
         mret (Respond (unauthorized env "Unauthorized: Invalid access token"))).
End Middleware.

(** The principal [getAuth] returns. *)
Record Principal := {
  userId : value;
  orgId : value;
  scopes : list value;
  user : value;
}.

(** [token?.payload || token || {}]. *)
Definition user_of (token : value) : value :=
  js_or (js_or (opt_get token "payload") token) (JObj ∅).

Definition getAuth (env : Env) (context : Context) : Principal :=
  let token := context_get context "auth0Token" in
  let user := user_of token in
  let userId :=
    if truthy (js_and (JBool (is_string (get user "sub"))) (get user "sub"))
    then get user "sub" else JStr (str "anonymous") in
  let orgId :=
    js_or (js_and (JBool (is_string (get user "org_id"))) (get user "org_id"))
          (API_DEFAULT_ORG env) in
  let scopeValue := get user "scope" in
  let permissionsValue := get user "permissions" in
  let scopeArray :=
    match scopeValue with
    | JArr xs => xs
    | JStr s => JStr <$> filter (λ t : jsstring, t ≠ []) (split s SPACE)
    | _ => []
    end in
  let permissionsArray :=
    match permissionsValue with
    | JArr xs => xs
    | _ => []
    end in
  let scopes := new_Set (scopeArray ++ permissionsArray) in
  {| userId := userId; orgId := orgId; scopes := scopes; user := user |}.

(** Whether a trace shows the rest of the chain invoked, or a token
    submitted for verification. *)
Definition invoked_next (t : list event) : Prop := ∃ c, Next c ∈ t.
Definition attempted_verification (t : list event) : Prop :=
  ∃ a, VerifyAccessToken a ∈ t.

(** The pieces of a split, put together again around the separator. *)
Fixpoint join (sep : N) (pieces : list jsstring) : jsstring :=
  match pieces with
  | [] => []
  | [p] => p
  | p :: rest => p ++ sep :: join sep rest
  end.

End ApiAuth.

(* ===================================================================== *)
(** * The tool server: sessions and the task-creation tool *)
(* ===================================================================== *)

Module McpServer.
Import Js Eff.

Inductive event :=
  | Log (msg : string) (data : value)
  | CallApi (path : jsstring) (options : value).

Definition emit (e : event) : M (list event) value unit :=
  modify (λ t, t ++ [e]).

(** [createSession(extra)]: the session of the caller, [null] without
    transport-level auth info. *)
Definition createSession (extra : value) : value :=
  let auth := opt_get extra "authInfo" in
  if truthy auth then
    JObj {[ "token" := get auth "token";
            "extra" := js_or (get auth "extra") (JObj ∅);
            "scopes" := js_or (get auth "scopes") (JArr []);
            "clientId" := get auth "clientId" ]}
  else JNull.

(** [session?.extra?.sub || 'anonymous'], the principal every other tool
    handler reports. *)
Definition principal_of (session : value) : value :=
  js_or (opt_get (opt_get session "extra") "sub") (JStr (str "anonymous")).

(** The object [taskData] of the [tv_create_task] handler once
    [delete taskData.name] has run. [args] is the argument object the
    schema validation hands to the handler. *)
Definition taskData (args : gmap string value) (session : value)
  : gmap string value :=
  let spread := args in
  let with_title :=
    <["title" := js_or (get (JObj args) "title") (get (JObj args) "name")]>
      spread in
  let with_owner :=
    <["ownerId" :=
        js_or (js_or (get (JObj args) "ownerId")
                     (opt_get (opt_get session "extra") "sub"))
              (JStr (str "default-user"))]> with_title in
  delete "name" with_owner.

(** The caller has no subject: [session?.extra?.sub] is falsy, as it is
    for the [null] session. *)
Definition no_subject (session : value) : Prop :=
  truthy (opt_get (opt_get session "extra") "sub") = false.

Section Tools.
(** [callApi] of the client module: the decoded response body, or the
    error it fails with. *)
Variable api : jsstring → value → value + value.
(** [JSON.stringify(data, null, 2)]. *)
Variable JSON_stringify : value → value.

Definition callApi (path : jsstring) (options : value)
  : M (list event) value value :=
  emit (CallApi path options);;
  match api path options with
  | inl error => throw error
  | inr result => mret result
  end.

Definition formatResult (data : value) : value :=
  JObj {[ "content" :=
            JArr [JObj {[ "type" := JStr (str "text");
                          "text" := JSON_stringify data ]}] ]}.

Definition tv_create_task (args : gmap string value) (extra : value)
  : M (list event) value value :=
  let session := createSession extra in
  emit (Log "tv_create_task original args:" (JObj args));;
  let taskData := taskData args session in
  emit (Log "tv_create_task transformed args:" (JObj taskData));;
  result ← callApi (str "/tasks")
             (JObj {[ "method" := JStr (str "POST");
                      "body" := JObj taskData;
                      "session" := session ]});
  mret (formatResult result).
End Tools.

End McpServer.

(* ===================================================================== *)
(** * The agent's bridge to the tool server *)
(* ===================================================================== *)

Module McpClient.
Import Js Eff.

Inductive event :=
  | LogInfo (msg : string)
  | LogError (msg : string)
  | NewTransport (authProvider : bool)
  | NewClient
  | Connect
  | ListTools
  | ClientCallTool (name args : value)
  | ClientClose
  | TransportClose.

(** The variables the closures of [createMCPClient] share, the number of
    [Date.now()] readings taken so far, and what happened. *)
Record World := {
  transport : bool;
  client : bool;
  exchangedScopes : value;
  tokenExchangeTime : option Z;
  ticks : nat;
  trace : list event;
}.

Definition initial : World :=
  {| transport := false; client := false; exchangedScopes := JNull;
     tokenExchangeTime := None; ticks := 0; trace := [] |}.

Definition emit (e : event) : M World value unit :=
  modify (λ w, {| transport := transport w; client := client w;
                  exchangedScopes := exchangedScopes w;
                  tokenExchangeTime := tokenExchangeTime w;
                  ticks := ticks w; trace := trace w ++ [e] |}).

Definition set_transport : M World value unit :=
  modify (λ w, {| transport := true; client := client w;
                  exchangedScopes := exchangedScopes w;
                  tokenExchangeTime := tokenExchangeTime w;
                  ticks := ticks w; trace := trace w |}).

Definition set_client : M World value unit :=
  modify (λ w, {| transport := transport w; client := true;
                  exchangedScopes := exchangedScopes w;
                  tokenExchangeTime := tokenExchangeTime w;
                  ticks := ticks w; trace := trace w |}).

Definition set_exchangedScopes (v : value) : M World value unit :=
  modify (λ w, {| transport := transport w; client := client w;
                  exchangedScopes := v;
                  tokenExchangeTime := tokenExchangeTime w;
                  ticks := ticks w; trace := trace w |}).

Definition set_tokenExchangeTime (t : Z) : M World value unit :=
  modify (λ w, {| transport := transport w; client := client w;
                  exchangedScopes := exchangedScopes w;
                  tokenExchangeTime := Some t;
                  ticks := ticks w; trace := trace w |}).

(** An awaited call on the SDK: it resolves ([inr]) or rejects ([inl]). *)
Definition await {A} (e : event) (reply : value + A) : M World value A :=
  emit e;;
  match reply with
  | inl error => throw error
  | inr a => mret a
  end.

(** What the transport, the SDK client and the tool server do during the
    life of one bridge. *)
Record Remote := {
  new_transport : value + unit;
  new_client : value + unit;
  connect : value + unit;
  listTools : value + value;
  client_close : value + unit;
  transport_close : value + unit;
}.

Section Bridge.
Variable accessToken : value.
(** The reading of the [n]-th [Date.now()]. *)
Variable clock : nat → Z.
(** [JSON.parse]; [None] when it throws. *)
Variable JSON_parse : value → option value.
Variable remote : Remote.

Definition Date_now : M World value Z :=
  λ w, ({| transport := transport w; client := client w;
           exchangedScopes := exchangedScopes w;
           tokenExchangeTime := tokenExchangeTime w;
           ticks := S (ticks w); trace := trace w |},
        inr (clock (ticks w))).

Definition parse (text : value) : M World value value :=
  match JSON_parse text with
  | Some parsed => mret parsed
  | None => throw (JStr (str "SyntaxError"))
  end.

Definition when (b : bool) (m : M World value unit) : M World value unit :=
  if b then m else mret tt.

(** [error.message] in a [catch] block: reading a property of [null] or
    [undefined] throws. *)
Definition message_of (error : value) : M World value value :=
  match error with
  | JUndefined | JNull => throw (JStr (str "TypeError"))
  | _ => mret (get error "message")
  end.

(** [callTool(name, args)] of the bridge; [reply] is the outcome of the
    awaited [client.callTool]. *)
Definition callTool (name args : value) (reply : value + value)
  : M World value value :=
  emit (LogInfo "Calling MCP tool:");;
  startTime ← Date_now;
  recorded ← gets tokenExchangeTime;
  let needsTokenExchange :=
    truthy accessToken && bool_decide (recorded = None) in
  exchangeStartTime ←
    (if needsTokenExchange then now ← Date_now; mret (Some now)
     else mret None);
  try_catch
    (result ← await (ClientCallTool name args) reply;
     match exchangeStartTime with
     | Some started =>
         when (needsTokenExchange && negb (started =? 0)%Z)
           (now ← Date_now; set_tokenExchangeTime (now - started))
     | None => mret tt
     end;;
     scopes ← gets exchangedScopes;
     let text := opt_get (opt_get0 (opt_get result "content")) "text" in
     when (negb (truthy scopes) && truthy text)
       (try_catch
          (parsed ← parse text;
           let disclosed :=
             opt_get (opt_get parsed "_metadata") "exchangedScopes" in
           when (truthy disclosed) (set_exchangedScopes disclosed))
          (λ e, mret tt));;
     now ← Date_now;
     let duration := (now - startTime)%Z in
     emit (LogInfo "MCP tool completed:");;
     mret result)
    (λ error,
     now ← Date_now;
     let duration := (now - startTime)%Z in
     message_of error;;
     emit (LogError "MCP tool failed:");;
     throw error).

Definition getMetadata : M World value (value * option Z) :=
  w ← gets id; mret (exchangedScopes w, tokenExchangeTime w).

(** [cleanup()]: both closes sit in one [try] block. *)
Definition cleanup : M World value unit :=
  try_catch
    (c ← gets client;
     when c (await ClientClose (client_close remote));;
     t ← gets transport;
     when t (await TransportClose (transport_close remote)))
    (λ error, message_of error;; emit (LogError "Cleanup error:")).

(** [createMCPClient(accessToken)] up to the point where it returns the
    bridge: the discovered tools, or the connection error re-thrown
    after both handles were closed, each on its own [.catch]. *)
Definition createMCPClient : M World value value :=
  emit (LogInfo "Connecting to MCP server:");;
  try_catch
    (await (NewTransport (truthy accessToken)) (new_transport remote);;
     set_transport;;
     await NewClient (new_client remote);;
     set_client;;
     await Connect (connect remote);;
     toolsResult ← await ListTools (listTools remote);
     match toolsResult with
     | JUndefined | JNull => throw (JStr (str "TypeError"))
     | _ =>
         emit (LogInfo "Discovered MCP tools");;
         mret (js_or (get toolsResult "tools") (JArr []))
     end)
    (λ error,
     message_of error;;
     emit (LogError "MCP connection failed:");;
     c ← gets client;
     when c (try_catch (await ClientClose (client_close remote))
                       (λ _, mret tt));;
     t ← gets transport;
     when t (try_catch (await TransportClose (transport_close remote))
                       (λ _, mret tt));;
     throw error).

(** One [callTool] of a request, with the outcome of the remote call,
    and the world after the request awaited a sequence of them. *)
Record Call := { tool : value; arguments : value; reply : value + value }.

Definition step (w : World) (c : Call) : World :=
  fst (callTool (tool c) (arguments c) (reply c) w).

Definition run (cs : list Call) (w : World) : World := fold_left step cs w.

(** The scopes a reply discloses: the truthy [_metadata.exchangedScopes]
    of the JSON text in the first content block of a result. *)
Definition disclosure (reply : value + value) : option value :=
  match reply with
  | inl _ => None
  | inr result =>
      let text := opt_get (opt_get0 (opt_get result "content")) "text" in
      if truthy text then
        parsed ← JSON_parse text;
        let disclosed :=
          opt_get (opt_get parsed "_metadata") "exchangedScopes" in
        if truthy disclosed then Some disclosed else None
      else None
  end.
End Bridge.

End McpClient.


(* ===================================================================== *)
(** * Concrete requests, used to exercise the statements below *)
(* ===================================================================== *)

Module Samples.
Import Js ApiAuth.

Definition env_on : Env :=
  {| AUTH_ENABLED := true;
     API_AUTH0_AUDIENCE := str "https://api.taskvantage.example";
     API_DEFAULT_ORG := JStr (str "demo-org") |}.

Definition env_off : Env :=
  {| AUTH_ENABLED := false;
     API_AUTH0_AUDIENCE := [];
     API_DEFAULT_ORG := JStr (str "demo-org") |}.

(** A request without an [Authorization] header, and one whose header
    carries a token. *)
Definition bare_request : Context := {| authorization := None; vars := ∅ |}.

Definition bearer_request : Context :=
  {| authorization := Some (str "Bearer abc.def.ghi"); vars := ∅ |}.

(** Requests whose header carries no bearer token: credentials of another
    scheme, and the bare word. *)
Definition basic_request : Context :=
  {| authorization := Some (str "Basic dXNlcjpwdw=="); vars := ∅ |}.

Definition bare_scheme_request : Context :=
  {| authorization := Some (str "Bearer"); vars := ∅ |}.

(** A verifier that rejects every token. *)
Definition reject_all (accessToken : jsstring) : value + value :=
  inl (JStr (str "invalid signature")).

(** A context whose verified payload has a scope string, a permissions
    list and no subject. *)
Definition scoped_payload : value :=
  JObj {[ "scope" := JStr (str "a b a");
          "permissions" := JArr [JStr (str "b"); JStr (str "c")] ]}.

Definition verified (payload : value) : Context :=
  {| authorization := None; vars := {[ "auth0Token" := payload ]} |}.

(** Tool arguments that name the task by the alias only. *)
Definition alias_args : gmap string value :=
  {[ "projectId" := JStr (str "p1"); "name" := JStr (str "X");
     "tags" := JArr [] ]}.

(** A resource API that answers every call with an empty object. *)
Definition api_ok (path : jsstring) (options : value) : value + value :=
  inr (JObj ∅).

Definition stringify_stub (data : value) : value := JStr (str "{}").

(** The second argument of a handler called without auth info. *)
Definition extra_anonymous : value := JObj ∅.

End Samples.

Module BridgeSamples.
Import Js McpClient.

Definition token : value := JStr (str "tok").

(** A clock that advances five milliseconds between readings. *)
Definition clock (n : nat) : Z := (1000 + 5 * Z.of_nat n)%Z.

(** A clock whose readings grow apart, so that a difference tells
    between which two readings it was taken. *)
Definition spreading_clock (n : nat) : Z := (1000 + Z.of_nat (n * n))%Z.

Definition quoted (s : string) : jsstring := [34%N] ++ str s ++ [34%N].

(** The JSON text [{"_metadata":{"exchangedScopes":<scopes>}}]. *)
Definition metadata_text (scopes : string) : jsstring :=
  str "{" ++ quoted "_metadata" ++ str ":{" ++ quoted "exchangedScopes"
  ++ str ":" ++ quoted scopes ++ str "}}".

(** [JSON.parse] on the texts used here; anything else is a syntax error. *)
Definition parse (text : value) : option value :=
  match text with
  | JStr s =>
      if bool_decide (s = metadata_text "tasks:read") then
        Some (JObj {[ "_metadata" :=
                        JObj {[ "exchangedScopes" := JStr (str "tasks:read") ]} ]})
      else if bool_decide (s = metadata_text "tasks:write") then
        Some (JObj {[ "_metadata" :=
                        JObj {[ "exchangedScopes" := JStr (str "tasks:write") ]} ]})
      else if bool_decide (s = str "{}") then Some (JObj ∅)
      else None
  | _ => None
  end.

Definition text_result (text : jsstring) : value :=
  JObj {[ "content" :=
            JArr [JObj {[ "type" := JStr (str "text"); "text" := JStr text ]}] ]}.

Definition call (reply : value + value) : Call :=
  {| tool := JStr (str "tv_list_tasks"); arguments := JObj ∅; reply := reply |}.

Definition rejected : Call := call (inl (JStr (str "fetch failed"))).
Definition plain : Call := call (inr (text_result (str "{}"))).
Definition garbled : Call := call (inr (text_result (str "not json"))).
Definition discloses_read : Call :=
  call (inr (text_result (metadata_text "tasks:read"))).
Definition discloses_write : Call :=
  call (inr (text_result (metadata_text "tasks:write"))).

(** A bridge whose handles are both open, and a remote on which closing
    the client fails, as does the initial handshake. *)
Definition connected : World :=
  {| transport := true; client := true; exchangedScopes := JNull;
     tokenExchangeTime := None; ticks := 0; trace := [] |}.

Definition client_close_fails : Remote :=
  {| new_transport := inr tt; new_client := inr tt;
     connect := inl (JStr (str "ECONNREFUSED"));
     listTools := inr (JObj ∅);
     client_close := inl (JStr (str "close failed"));
     transport_close := inr tt |}.

End BridgeSamples.

(* ===================================================================== *)
(** * The resource API: scope enforcement *)
(* ===================================================================== *)

Module ApiScope.
Import Js ApiAuth.

(** [xs.includes(v)], which compares with [SameValueZero]. *)
Definition includes (xs : list value) (v : value) : bool :=
  existsb (λ x, same_value_zero x v) xs.

(** [requireScope(needed)(c)]: the 403 response, or [undefined] ([None])
    when the principal holds the scope and the route goes on. *)
Definition requireScope (env : Env) (needed : jsstring) (c : Context)
  : option Response :=
  let scopes := scopes (getAuth env c) in
  if negb (includes scopes (JStr needed)) then
    Some {| body := JObj {[ "error" :=
                              JStr (str "insufficient_scope, need: " ++ needed) ]};
            status := 403;
            headers := ∅ |}
  else None.

(** The tokens the middleware submitted for verification, in order. *)
Definition verifications (t : list event) : list jsstring :=
  omap (λ e, match e with VerifyAccessToken a => Some a | _ => None end) t.

End ApiScope.

(* ===================================================================== *)
(** * The resource API: installing the verifier *)
(* ===================================================================== *)

Module ApiIngress.
Import Js Eff ApiAuth.

(** A middleware as [app.use] takes it: given the context it responds or
    hands over to the rest of the chain. *)
Definition Middleware : Type := Context → M (list event) value outcome.

(** What [applyAuth(app)] leaves behind: whether the module's [apiClient]
    was created, the middlewares it registered with [app.use], each with
    its path pattern, and whether it printed its warning. *)
Record Applied := {
  apiClient : bool;
  registered : list (string * Middleware);
  warned : bool;
}.

(** [applyAuth(app)]; [verify] is the [verifyAccessToken] of the client it
    creates. *)
Definition applyAuth (env : Env) (verify : jsstring → value + value)
  : Applied :=
  if AUTH_ENABLED env then
    {| apiClient := true;
       registered := [("/*", authMiddleware env verify)];
       warned := false |}
  else
    {| apiClient := false; registered := []; warned := true |}.

Definition blank (s : jsstring) : Prop :=
  Forall (λ c, is_white_space c = true) s.

(** A header that carries no token: it is absent or blank, or it is the
    word "Bearer", in any letter case, followed by white space only. *)
Definition carries_no_token (authorization : option jsstring) : Prop :=
  let authHeader := default [] authorization in
  blank authHeader
  ∨ ∃ scheme ws, authHeader = scheme ++ ws
      ∧ lower <$> scheme = str "bearer" ∧ ws ≠ [] ∧ blank ws.

End ApiIngress.

(* ===================================================================== *)
(** * Observations on a bridge trace *)
(* ===================================================================== *)

Module BridgeObs.
Import Js McpClient.

(** The close attempts of a trace, in order. *)
Definition closes (t : list event) : list event :=
  omap (λ e, match e with
             | ClientClose => Some ClientClose
             | TransportClose => Some TransportClose
             | _ => None
             end) t.

(** The remote tool calls of a trace, in order. *)
Definition remote_calls (t : list event) : list (value * value) :=
  omap (λ e, match e with
             | ClientCallTool name args => Some (name, args)
             | _ => None
             end) t.

(** Whether an awaited call resolved. *)
Definition resolved {A} (reply : value + A) : bool :=
  match reply with inr _ => true | inl _ => false end.

(** [null] or [undefined]: a value whose properties cannot be read. *)
Definition nullish (v : value) : bool :=
  match v with JUndefined | JNull => true | _ => false end.

(** A call that fails does so with an error whose [message] can be read,
    as that of every [Error] can; the handlers that log [error.message]
    rely on it. *)
Definition fails_properly {A} (reply : value + A) : Prop :=
  match reply with inl error => nullish error = false | inr _ => True end.

(** The step of the handshake that fails first, if any. *)
Definition first_failure (remote : Remote) : option value :=
  match new_transport remote, new_client remote, connect remote,
        listTools remote with
  | inl e, _, _, _ => Some e
  | _, inl e, _, _ => Some e
  | _, _, inl e, _ => Some e
  | _, _, _, inl e => Some e
  | _, _, _, inr (JUndefined | JNull) => Some (JStr (str "TypeError"))
  | _, _, _, inr _ => None
  end.

End BridgeObs.

(* ===================================================================== *)
(** * The tool server: the other tools and the registry *)
(* ===================================================================== *)

Module McpTools.
Import Js Eff McpServer.

(** The forwarded calls of a trace, in order. *)
Definition api_calls (t : list event) : list (jsstring * value) :=
  omap (λ e, match e with
             | CallApi path options => Some (path, options)
             | _ => None
             end) t.

Section Handlers.
Variable api : jsstring → value → value + value.
Variable JSON_stringify : value → value.
(** [enc(x)] and [qs(args)] of the client module, as spliced into a
    template literal. *)
Variable enc : value → jsstring.
Variable qs : value → jsstring.
(** The string a template literal makes of a value. *)
Variable String_of : value → jsstring.

Local Abbreviation callApi := (callApi api).
Local Abbreviation formatResult := (formatResult JSON_stringify).

(** [session?.token ? `${session.token[0]}***` : 'none']. *)
Definition auth_hint (session : value) : value :=
  if truthy (opt_get session "token")
  then JStr (String_of (opt_get0 (get session "token")) ++ str "***")
  else JStr (str "none").

(** The line every handler but [tv_create_task] logs first. *)
Definition log_tool (msg : string) (session args : value)
  : M (list event) value unit :=
  emit (Log msg (JObj {[ "principal" := principal_of session;
                         "auth" := auth_hint session;
                         "args" := args ]})).

Definition arg (args : gmap string value) (k : string) : value :=
  get (JObj args) k.

Definition tv_create_project (args : gmap string value) (extra : value)
  : M (list event) value value :=
  let session := createSession extra in
  log_tool "TOOL tv_create_project:" session (JObj args);;
  result ← callApi (str "/projects")
             (JObj {[ "method" := JStr (str "POST"); "body" := JObj args;
                      "session" := session ]});
  mret (formatResult result).

Definition tv_list_projects (args : gmap string value) (extra : value)
  : M (list event) value value :=
  let q := arg args "q" in
  let session := createSession extra in
  log_tool "TOOL tv_list_projects:" session (JObj {[ "q" := q ]});;
  result ← callApi (if truthy q then str "/projects?q=" ++ enc q
                    else str "/projects")
             (JObj {[ "session" := session ]});
  mret (formatResult result).

Definition tv_get_task (args : gmap string value) (extra : value)
  : M (list event) value value :=
  let taskId := arg args "taskId" in
  let session := createSession extra in
  log_tool "TOOL tv_get_task:" session (JObj {[ "taskId" := taskId ]});;
  result ← callApi (str "/tasks/" ++ enc taskId)
             (JObj {[ "session" := session ]});
  mret (formatResult result).

Definition tv_list_tasks (args : gmap string value) (extra : value)
  : M (list event) value value :=
  let session := createSession extra in
  log_tool "TOOL tv_list_tasks:" session (JObj args);;
  result ← callApi (str "/tasks?" ++ qs (JObj args))
             (JObj {[ "session" := session ]});
  mret (formatResult result).

Definition tv_update_task_status (args : gmap string value) (extra : value)
  : M (list event) value value :=
  let taskId := arg args "taskId" in
  let status := arg args "status" in
  let session := createSession extra in
  log_tool "TOOL tv_update_task_status:" session
    (JObj {[ "taskId" := taskId; "status" := status ]});;
  result ← callApi (str "/tasks/" ++ enc taskId ++ str "/status")
             (JObj {[ "method" := JStr (str "PATCH");
                      "body" := JObj {[ "status" := status ]};
                      "session" := session ]});
  mret (formatResult result).

Definition tv_assign_task (args : gmap string value) (extra : value)
  : M (list event) value value :=
  let taskId := arg args "taskId" in
  let ownerId := arg args "ownerId" in
  let session := createSession extra in
  log_tool "TOOL tv_assign_task:" session
    (JObj {[ "taskId" := taskId; "ownerId" := ownerId ]});;
  result ← callApi (str "/tasks/" ++ enc taskId ++ str "/assign")
             (JObj {[ "method" := JStr (str "PATCH");
                      "body" := JObj {[ "ownerId" := ownerId ]};
                      "session" := session ]});
  mret (formatResult result).

Definition tv_comment_task (args : gmap string value) (extra : value)
  : M (list event) value value :=
  let taskId := arg args "taskId" in
  let text := arg args "text" in
  let session := createSession extra in
  log_tool "TOOL tv_comment_task:" session
    (JObj {[ "taskId" := taskId; "text" := text ]});;
  result ← callApi (str "/tasks/" ++ enc taskId ++ str "/comments")
             (JObj {[ "method" := JStr (str "POST");
                      "body" := JObj {[ "text" := text ]};
                      "session" := session ]});
  mret (formatResult result).

Definition tv_tag_task (args : gmap string value) (extra : value)
  : M (list event) value value :=
  let taskId := arg args "taskId" in
  let add := arg args "add" in
  let remove := arg args "remove" in
  let session := createSession extra in
  log_tool "TOOL tv_tag_task:" session
    (JObj {[ "taskId" := taskId; "add" := add; "remove" := remove ]});;
  result ← callApi (str "/tasks/" ++ enc taskId ++ str "/tags")
             (JObj {[ "method" := JStr (str "PATCH");
                      "body" := JObj {[ "add" := add; "remove" := remove ]};
                      "session" := session ]});
  mret (formatResult result).

Definition tv_due_soon (args : gmap string value) (extra : value)
  : M (list event) value value :=
  let session := createSession extra in
  log_tool "TOOL tv_due_soon:" session (JObj args);;
  result ← callApi (str "/tasks-due-soon?" ++ qs (JObj args))
             (JObj {[ "session" := session ]});
  mret (formatResult result).

Definition tv_delete_project (args : gmap string value) (extra : value)
  : M (list event) value value :=
  let projectId := arg args "projectId" in
  let session := createSession extra in
  log_tool "TOOL tv_delete_project:" session
    (JObj {[ "projectId" := projectId ]});;
  result ← callApi (str "/projects/" ++ enc projectId)
             (JObj {[ "method" := JStr (str "DELETE");
                      "session" := session ]});
  mret (formatResult result).

Definition tv_delete_task (args : gmap string value) (extra : value)
  : M (list event) value value :=
  let taskId := arg args "taskId" in
  let session := createSession extra in
  log_tool "TOOL tv_delete_task:" session (JObj {[ "taskId" := taskId ]});;
  result ← callApi (str "/tasks/" ++ enc taskId)
             (JObj {[ "method" := JStr (str "DELETE");
                      "session" := session ]});
  mret (formatResult result).

(** A registered tool: its name, its [readOnlyHint] and its handler. *)
Record Tool := {
  name : string;
  readOnlyHint : bool;
  handler : gmap string value → value → M (list event) value value;
}.

(** The calls of [server.tool], in the order of the source. *)
Definition registry : list Tool :=
  [ {| name := "tv_create_project"; readOnlyHint := false;
       handler := tv_create_project |};
    {| name := "tv_list_projects"; readOnlyHint := true;
       handler := tv_list_projects |};
    {| name := "tv_create_task"; readOnlyHint := false;
       handler := tv_create_task api JSON_stringify |};
    {| name := "tv_get_task"; readOnlyHint := true;
       handler := tv_get_task |};
    {| name := "tv_list_tasks"; readOnlyHint := true;
       handler := tv_list_tasks |};
    {| name := "tv_update_task_status"; readOnlyHint := false;
       handler := tv_update_task_status |};
    {| name := "tv_assign_task"; readOnlyHint := false;
       handler := tv_assign_task |};
    {| name := "tv_comment_task"; readOnlyHint := false;
       handler := tv_comment_task |};
    {| name := "tv_tag_task"; readOnlyHint := false;
       handler := tv_tag_task |};
    {| name := "tv_due_soon"; readOnlyHint := true;
       handler := tv_due_soon |};
    {| name := "tv_delete_project"; readOnlyHint := false;
       handler := tv_delete_project |};
    {| name := "tv_delete_task"; readOnlyHint := false;
       handler := tv_delete_task |} ].
End Handlers.

End McpTools.

Module ToolSamples.
Import Js McpServer McpTools.

(** Stand-ins for [enc], [qs] and template-literal conversion on the
    arguments used here: plain ASCII words, which need no escaping. *)
Definition enc (v : value) : jsstring :=
  match v with JStr s => s | _ => [] end.

Definition qs (v : value) : jsstring := [].

Definition String_of (v : value) : jsstring :=
  match v with JStr s => s | _ => str "undefined" end.

(** The second argument of a handler called with auth info. *)
Definition extra_with_subject : value :=
  JObj {[ "authInfo" :=
            JObj {[ "token" := JStr (str "tok");
                    "extra" := JObj {[ "sub" := JStr (str "auth0|u1") ]} ]} ]}.

Definition get_task : Tool :=
  {| name := "tv_get_task"; readOnlyHint := true;
     handler := tv_get_task Samples.api_ok Samples.stringify_stub enc
                  String_of |}.

End ToolSamples.

(* ===================================================================== *)
(** * The agent: configuration *)
(* ===================================================================== *)

Module AgentEnv.
Import Js.

(** [str(v, fallback)] on a variable of [process.env], a string or
    [undefined]. *)
Definition str (v : option jsstring) (fallback : jsstring) : jsstring :=
  let s := trim (default [] v) in
  if bool_decide (s = []) then fallback else s.

(** [a || b] on two variables of [process.env]. *)
Definition env_or (a b : option jsstring) : option jsstring :=
  match a with
  | Some (_ :: _) => a
  | _ => b
  end.

Record Config := {
  AGENT_BASE_URL : jsstring;
  MCP_BASE_URL : jsstring;
  MCP_AUTH0_AUDIENCE : jsstring;
  AUTH0_DOMAIN : jsstring;
  AGENT_AUTH0_CLIENT_ID : jsstring;
  AGENT_AUTH0_CLIENT_SECRET : jsstring;
  AGENT_SESSION_SECRET : jsstring;
  OPENAI_API_KEY : jsstring;
  OPENAI_BASE_URL : jsstring;
  OPENAI_MODEL : jsstring;
  AUTH_ENABLED : bool;
}.

Definition nonempty (s : jsstring) : bool := negb (bool_decide (s = [])).

(** The exports of the module for an environment [env]. [agent_port] and
    [mcp_port] are the decimal renderings of [AGENT_PORT] and [MCP_PORT]
    that the template literals of the two base URLs splice in. *)
Definition load (env : gmap string jsstring) (agent_port mcp_port : jsstring)
  : Config :=
  let AGENT_BASE_URL :=
    str (env !! "AGENT_BASE_URL") (Js.str "http://localhost:" ++ agent_port) in
  let MCP_BASE_URL :=
    str (env !! "MCP_BASE_URL") (Js.str "http://localhost:" ++ mcp_port) in
  let AUTH0_DOMAIN := str (env !! "AUTH0_DOMAIN") [] in
  let AGENT_AUTH0_CLIENT_ID := str (env !! "AGENT_AUTH0_CLIENT_ID") [] in
  let AGENT_AUTH0_CLIENT_SECRET := str (env !! "AGENT_AUTH0_CLIENT_SECRET") [] in
  let AGENT_SESSION_SECRET := str (env !! "AGENT_SESSION_SECRET") [] in
  {| AGENT_BASE_URL := AGENT_BASE_URL;
     MCP_BASE_URL := MCP_BASE_URL;
     MCP_AUTH0_AUDIENCE := str (env !! "MCP_AUTH0_AUDIENCE") [];
     AUTH0_DOMAIN := AUTH0_DOMAIN;
     AGENT_AUTH0_CLIENT_ID := AGENT_AUTH0_CLIENT_ID;
     AGENT_AUTH0_CLIENT_SECRET := AGENT_AUTH0_CLIENT_SECRET;
     AGENT_SESSION_SECRET := AGENT_SESSION_SECRET;
     OPENAI_API_KEY :=
       str (env_or (env !! "LITELLM_KEY") (env !! "OPENAI_API_KEY")) [];
     OPENAI_BASE_URL := str (env !! "OPENAI_BASE_URL") [];
     OPENAI_MODEL := str (env !! "OPENAI_MODEL") (Js.str "gpt-4o");
     AUTH_ENABLED :=
       nonempty AUTH0_DOMAIN && nonempty AGENT_AUTH0_CLIENT_ID
       && nonempty AGENT_AUTH0_CLIENT_SECRET && nonempty AGENT_BASE_URL
       && nonempty AGENT_SESSION_SECRET |}.

(** A variable is set to something other than white space. *)
Definition provided (env : gmap string jsstring) (k : string) : Prop :=
  ∃ s, env !! k = Some s ∧ trim s ≠ [].

End AgentEnv.

(* ===================================================================== *)
(** * The agent: who is asking *)
(* ===================================================================== *)

Module AgentUser.
Import Js.

Fixpoint starts_with (pat s : jsstring) : bool :=
  match pat, s with
  | [], _ => true
  | a :: pat', c :: s' => (a =? c)%N && starts_with pat' s'
  | _ :: _, [] => false
  end.

(** [s.includes(pat)]. *)
Fixpoint includes (s pat : jsstring) : bool :=
  starts_with pat s
  || match s with
     | [] => false
     | _ :: s' => includes s' pat
     end.

(** [s.replace(pat, rep)] for a string pattern and a replacement without
    [$]: the first occurrence is replaced. *)
Fixpoint replace (s pat rep : jsstring) : jsstring :=
  if starts_with pat s then rep ++ drop (length pat) s
  else match s with
       | [] => []
       | c :: s' => c :: replace s' pat rep
       end.

Definition PLEDGEROCKET : jsstring := str "@pledgerocket.com".
Definition OKTA : jsstring := str "@okta.com".

(** [email?.includes('@pledgerocket.com') || email?.includes('@okta.com')]
    as a condition. *)
Definition internal (email : option jsstring) : bool :=
  match email with
  | Some e => includes e PLEDGEROCKET || includes e OKTA
  | None => false
  end.

Definition getUserType (email : option jsstring) : jsstring :=
  if internal email then str "Analyst @ PledgeRocket"
  else match email with
       | Some (_ :: _) => str "B2B Customer"
       | _ => str "Guest"
       end.

(** The session of the auth client: the profile of the user and the
    token sets held for them. *)
Record User := {
  sub : value;
  name : option jsstring;
  email : option jsstring;
  given_name : value;
  firstName : value;
  family_name : value;
  lastName : value;
  picture : value;
}.

Record TokenSet := { audience : value; accessToken : value }.

Record Session := { user : User; tokenSets : list TokenSet }.

(** What [getAuth] of the agent returns. *)
Record Auth := {
  auth_userId : value;
  auth_userName : value;
  auth_firstName : value;
  auth_lastName : value;
  auth_profilePicture : value;
  auth_accessToken : value;
  auth_userType : jsstring;
}.

Definition of_option (s : option jsstring) : value :=
  match s with Some s => JStr s | None => JUndefined end.

(** The predicate of [session.tokenSets.find]. *)
Definition for_audience (aud : jsstring) (tokenSet : TokenSet) : bool :=
  match audience tokenSet with
  | JStr a => bool_decide (a = aud)
  | JArr xs => existsb (λ x, same_value_zero x (JStr aud)) xs
  | _ => false
  end.

(** [getAuth(context)]; [session] is what [client?.getSession(context)]
    resolved to, [None] when there is no client or no session. *)
Definition getAuth (MCP_AUTH0_AUDIENCE : jsstring) (session : option Session)
  : Auth :=
  match session with
  | None =>
      {| auth_userId := JNull; auth_userName := JNull; auth_firstName := JNull;
         auth_lastName := JNull; auth_profilePicture := JNull;
         auth_accessToken := JNull; auth_userType := str "Guest" |}
  | Some session =>
      let mcpTokenSet :=
        List.find (for_audience MCP_AUTH0_AUDIENCE) (tokenSets session) in
      let isInternal := internal (email (user session)) in
      let userName :=
        match name (user session) with
        | Some n =>
            if isInternal && includes n OKTA
            then JStr (replace n OKTA PLEDGEROCKET) else JStr n
        | None => JUndefined
        end in
      {| auth_userId := sub (user session);
         auth_userName := userName;
         auth_firstName :=
           js_or (given_name (user session)) (firstName (user session));
         auth_lastName :=
           js_or (family_name (user session)) (lastName (user session));
         auth_profilePicture := picture (user session);
         auth_accessToken :=
           match mcpTokenSet with
           | Some ts => accessToken ts
           | None => JUndefined
           end;
         auth_userType := getUserType (email (user session)) |}
  end.

Record UserContext := {
  userId : value;
  userName : value;
  ctx_firstName : value;
  ctx_lastName : value;
  profilePicture : value;
  isB2BCustomer : bool;
  userType : jsstring;
}.

Definition createUserContext (auth : Auth) : UserContext :=
  {| userId := auth_userId auth;
     userName := auth_userName auth;
     ctx_firstName := auth_firstName auth;
     ctx_lastName := auth_lastName auth;
     profilePicture := auth_profilePicture auth;
     isB2BCustomer := bool_decide (auth_userType auth = str "B2B Customer");
     userType := auth_userType auth |}.

(** [pat] occurs in [s]. *)
Definition occurs (pat s : jsstring) : Prop :=
  ∃ pre post, s = pre ++ pat ++ post.

(** Whether a token set is held for an audience: its audience is that
    string, or an array with that string in it. *)
Definition held_for (aud : jsstring) (ts : TokenSet) : Prop :=
  audience ts = JStr aud ∨ ∃ xs, audience ts = JArr xs ∧ JStr aud ∈ xs.

End AgentUser.

(* ===================================================================== *)
(** * The agent: the content of a response *)
(* ===================================================================== *)

Module AgentResponse.
Import Js Agent.

Section Content.
(** [String(response)]. *)
Variable String_of : value → jsstring.

(** The content [extractResponseText] selects from a response. *)
Definition select_content (response : value) : value :=
  js_or
    (js_or
       (js_or
          (js_or
             (js_or (opt_get (opt_get (opt_get response "data") "message")
                       "content")
                    (opt_get (opt_get response "data") "content"))
             (opt_get response "data"))
          (opt_get (opt_get response "message") "content"))
       (opt_get response "content"))
    (JStr (String_of response)).

(** [extractResponseText(response)] on any response: content that is
    not a string is returned as it is. *)
Definition extractResponseText_of (response : value) : value :=
  match select_content response with
  | JStr content => JStr (extractResponseText content)
  | content => content
  end.
End Content.

End AgentResponse.

(* ===================================================================== *)
(** * The agent: the chat endpoint *)
(* ===================================================================== *)

Module Chat.
Import Js Eff BridgeObs.

Inductive event :=
  | ReqJson
  | GetSession
  | NewRequest
  | LogInfo (msg : string)
  | LogError (msg : string)
  | GetMemory (userKey : value)
  | CreateTools (accessToken : value)
  | NewLlm
  | NewAgent (withTools : bool)
  | MemoryAdd (role : string) (content : value)
  | AgentRun (message : value)
  | GetMetadata
  | ToolsCleanup.

(** What has happened, and whether [toolsCleanup] has been assigned the
    cleanup of the tools (it starts as a function that does nothing). *)
Record World := { trace : list event; assigned : bool }.

Definition start : World := {| trace := []; assigned := false |}.

Definition emit (e : event) : M World value unit :=
  modify (λ w, {| trace := trace w ++ [e]; assigned := assigned w |}).

Definition assign_cleanup : M World value unit :=
  modify (λ w, {| trace := trace w; assigned := true |}).

(** A call on a collaborator: it returns ([inr]) or fails ([inl]). *)
Definition call {A} (e : event) (reply : value + A) : M World value A :=
  emit e;;
  match reply with
  | inl error => throw error
  | inr a => mret a
  end.

(** [try { m } finally { f }]: [f] runs either way, and a failure of [f]
    replaces the outcome of [m]. *)
Definition finally {A} (m : M World value A) (f : M World value unit)
  : M World value A :=
  λ w, match m w with
       | (w', r) =>
           match f w' with
           | (w'', inr _) => (w'', r)
           | (w'', inl error) => (w'', inl error)
           end
       end.

(** What [createTools] of the tools module resolves to: the number of
    tools, what [metadata.getMetadata()] returns, [metadata.toolCalls],
    [metadata.mcpClient], and how [cleanup()] ends. *)
Record Tools := {
  tools_count : nat;
  getMetadata : value + value;
  toolCalls : value;
  mcpClient : value;
  cleanup : value + unit;
}.

(** The collaborators of one request. *)
Record Externals := {
  req_json : value + value;
  getSession : value + option AgentUser.Session;
  newRequest : value + value;
  getMemory : value + unit;
  createTools : value + Tools;
  openai : value + unit;
  agent : value + unit;
  memory_add_user : value + unit;
  run : value + value;
  memory_add_assistant : value + unit;
}.

(** [context.json(body, status)]. *)
Record Response := { body : value; status : Z }.

Definition json (body : value) (status : Z) : Response :=
  {| body := body; status := status |}.

(** [v?.length] of an array, a string or an object. *)
Definition opt_length (v : value) : value :=
  match v with
  | JArr xs => JNum (Z.of_nat (length xs))
  | JStr s => JNum (Z.of_nat (length s))
  | JObj props => default JUndefined (props !! "length")
  | _ => JUndefined
  end.


Definition userContext_value (c : AgentUser.UserContext) : value :=
  JObj {[ "userId" := AgentUser.userId c;
          "userName" := AgentUser.userName c;
          "firstName" := AgentUser.ctx_firstName c;
          "lastName" := AgentUser.ctx_lastName c;
          "profilePicture" := AgentUser.profilePicture c;
          "isB2BCustomer" := JBool (AgentUser.isB2BCustomer c);
          "userType" := JStr (AgentUser.userType c) ]}.

Definition GENERIC_ERROR : string :=
  "Sorry, I encountered an error processing your request.".

(** [error.constructor] of a value that is not [null] or [undefined]: an
    object's own property when it has one and what it inherits
    otherwise, which the prototype chain decides ([inherited]); on a
    primitive, an array or a function the read goes to the built-in
    prototype, which holds the constructor function. *)
Definition constructor_of (inherited : gmap string value → value)
    (error : value) : value :=
  match error with
  | JObj props => default (inherited props) (props !! "constructor")
  | _ => JFunction
  end.

Section Handler.
Variable AUTH_ENABLED : bool.
Variable MCP_AUTH0_AUDIENCE : jsstring.
(** [String(v)] and the string a template literal makes of [v]. *)
Variable String_of : value → jsstring.
(** What an object without a [constructor] property of its own inherits
    for it: a function for an ordinary object or an [Error], [undefined]
    for an object made without a prototype. *)
Variable inherited_constructor : gmap string value → value.
Variable ext : Externals.

(** [getAuth(context)] of the agent, with the session lookup it awaits;
    the lookup yields no session when the context has no auth client. *)
Definition getAuth : M World value AgentUser.Auth :=
  session ← call GetSession (getSession ext);
  mret (AgentUser.getAuth MCP_AUTH0_AUDIENCE session).

(** The [context] field of both payloads. *)
Definition user_context (auth : AgentUser.Auth) : value :=
  if AUTH_ENABLED && truthy (AgentUser.auth_userId auth)
  then userContext_value (AgentUser.createUserContext auth)
  else JObj {[ "message" := JStr (str "Running without authentication") ]}.

Definition handleUserCheck : M World value Response :=
  auth ← getAuth;
  mret (json (JObj {[ "response" := JStr []; "context" := user_context auth ]})
             200).

(** The [scopes] field of the metadata:
    [exchangedScopes ? exchangedScopes.split(' ') : []]. *)
Definition split_value (v : value) : option value :=
  match v with
  | JStr s => Some (JArr (JStr <$> split s SPACE))
  | _ => None
  end.

Definition scopes_field (exchangedScopes : value) : M World value value :=
  if truthy exchangedScopes then
    match split_value exchangedScopes with
    | Some scopes => mret scopes
    | None => throw (JStr (str "TypeError"))
    end
  else mret (JArr []).

(** [message === '__CHECK_USER__']. *)
Definition is_check_user (message : value) : bool :=
  match message with
  | JStr m => bool_decide (m = str "__CHECK_USER__")
  | _ => false
  end.

(** What the [try] block of [handleChat] returns: a response, or the
    promise of [handleUserCheck], which is returned without being
    awaited and so settles outside the [try]. *)
Inductive returned :=
  | Now (r : Response)
  | Later (settled : value + Response).

Definition try_block : M World value returned :=
  parsed ← call ReqJson (req_json ext);
  if nullish parsed then throw (JStr (str "TypeError"))
  else
    let message := get parsed "message" in
    if negb (truthy message) then
      mret (Now (json (JObj {[ "error" := JStr (str "Message is required") ]})
                      400))
    else if is_check_user message then
      try_catch (r ← handleUserCheck; mret (Later (inr r)))
                (λ error, mret (Later (inl error)))
    else
      reqId ← call NewRequest (newRequest ext);
      auth ← getAuth;
      emit (LogInfo "USER:");;
      call (GetMemory (js_or (AgentUser.auth_userId auth)
                             (JStr (str "anonymous"))))
           (getMemory ext);;
      tools ← call (CreateTools (AgentUser.auth_accessToken auth))
                (createTools ext);
      assign_cleanup;;
      call NewLlm (openai ext);;
      call (NewAgent (bool_decide (0 < tools_count tools))) (agent ext);;
      call (MemoryAdd "user" message) (memory_add_user ext);;
      let contextualMessage :=
        if AUTH_ENABLED && truthy (AgentUser.auth_userId auth)
        then JStr (str "[User: " ++ String_of (AgentUser.auth_userId auth)
                   ++ str "] " ++ String_of message)
        else message in
      response ← call (AgentRun contextualMessage) (run ext);
      let responseText :=
        AgentResponse.extractResponseText_of String_of response in
      call (MemoryAdd "assistant" (JStr (String_of responseText)))
           (memory_add_assistant ext);;
      mcpMetadata ← call GetMetadata (getMetadata tools);
      if nullish mcpMetadata then throw (JStr (str "TypeError"))
      else
        let mcpToolCount :=
          js_or (opt_length (opt_get (mcpClient tools) "tools")) (JNum 0) in
        scopes ← scopes_field (get mcpMetadata "exchangedScopes");
        mret (Now (json
          (JObj {[ "response" := responseText;
                   "context" := user_context auth;
                   "metadata" :=
                     JObj {[ "requestId" := reqId;
                             "userId" := js_or (AgentUser.auth_userId auth) JNull;
                             "userName" :=
                               js_or (AgentUser.auth_userName auth) JNull;
                             "firstName" :=
                               js_or (AgentUser.auth_firstName auth) JNull;
                             "lastName" :=
                               js_or (AgentUser.auth_lastName auth) JNull;
                             "tokenHint" :=
                               js_or (AgentUser.auth_accessToken auth) JNull;
                             "scopes" := scopes;
                             "mcpTools" := mcpToolCount;
                             "toolCalls" := toolCalls tools;
                             "tokenExchangeTime" :=
                               get mcpMetadata "tokenExchangeTime" ]} ]})
          200)).

(** [await toolsCleanup()]. *)
Definition toolsCleanup : M World value unit :=
  w ← gets id;
  if assigned w then
    match createTools ext with
    | inr tools => call ToolsCleanup (cleanup tools)
    | inl _ => mret tt
    end
  else mret tt.

(** The [catch] block: the argument of [log.error] reads
    [error.message] and then [error.constructor.name], and either read
    throws when what it is applied to is [null] or [undefined]. *)
Definition catch_block (error : value) : M World value returned :=
  if nullish error then throw (JStr (str "TypeError"))
  else if nullish (constructor_of inherited_constructor error)
  then throw (JStr (str "TypeError"))
  else
    emit (LogError "ERROR:");;
    mret (Now (json (JObj {[ "error" := JStr (str GENERIC_ERROR) ]}) 500)).

Definition handleChat : M World value Response :=
  r ← finally (try_catch try_block catch_block) toolsCleanup;
  match r with
  | Now response => mret response
  | Later (inr response) => mret response
  | Later (inl error) => throw error
  end.
End Handler.

(** The cleanups and the tool creations of a trace. *)
Definition cleanups (t : list event) : list event :=
  omap (λ e, match e with ToolsCleanup => Some ToolsCleanup | _ => None end) t.

Definition creations (t : list event) : list value :=
  omap (λ e, match e with CreateTools a => Some a | _ => None end) t.

(** A call that fails does so with an error on which the [catch] block
    of [handleChat] can read [message] and [constructor.name]: it is not
    [null] or [undefined], and neither is its constructor. Every [Error]
    is such a value. *)
Definition fails_with_error {A} (inherited : gmap string value → value)
    (reply : value + A) : Prop :=
  match reply with
  | inl error =>
      nullish error = false ∧ nullish (constructor_of inherited error) = false
  | inr _ => True
  end.

(** Every collaborator that fails does so with such an error. *)
Definition proper (inherited : gmap string value → value) (ext : Externals)
  : Prop :=
  fails_with_error inherited (req_json ext)
  ∧ fails_with_error inherited (getSession ext)
  ∧ fails_with_error inherited (newRequest ext)
  ∧ fails_with_error inherited (getMemory ext)
  ∧ fails_with_error inherited (createTools ext)
  ∧ fails_with_error inherited (openai ext)
  ∧ fails_with_error inherited (agent ext)
  ∧ fails_with_error inherited (memory_add_user ext)
  ∧ fails_with_error inherited (run ext)
  ∧ fails_with_error inherited (memory_add_assistant ext)
  ∧ match createTools ext with
    | inr tools => fails_with_error inherited (getMetadata tools)
    | inl _ => True
    end.

End Chat.

Module AgentSamples.
Import Js AgentUser.

Definition profile (email name : string) : User :=
  {| sub := JStr (str "auth0|u1"); name := Some (str name);
     email := Some (str email); given_name := JUndefined;
     firstName := JUndefined; family_name := JUndefined;
     lastName := JUndefined; picture := JUndefined |}.

Definition mcp_audience : jsstring := str "https://mcp.example".

Definition other_tokens : TokenSet :=
  {| audience := JStr (str "https://other.example");
     accessToken := JStr (str "t-other") |}.

Definition mcp_tokens : TokenSet :=
  {| audience := JArr [JStr (str "https://x.example"); JStr mcp_audience];
     accessToken := JStr (str "t-mcp") |}.

(** A session that holds a token set for another audience first, then
    one whose audience array names the tool server. *)
Definition session : Session :=
  {| user := profile "ana@okta.com" "ana@okta.com";
     tokenSets := [other_tokens; mcp_tokens] |}.

(** The shape of a response of the agent framework. *)
Definition framework_response (content : jsstring) : value :=
  JObj {[ "data" := JObj {[ "message" := JObj {[ "content" := JStr content ]} ]};
          "content" := JStr (str "ignored") ]}.

(** A request for which every collaborator succeeds, and one whose
    agent run fails. *)
Definition chat_tools : Chat.Tools :=
  {| Chat.tools_count := 12;
     Chat.getMetadata :=
       inr (JObj {[ "exchangedScopes" := JStr (str "tasks:read tasks:write");
                    "tokenExchangeTime" := JNum 5 ]});
     Chat.toolCalls := JArr [];
     Chat.mcpClient := JObj ∅;
     Chat.cleanup := inr tt |}.

Definition chat_ok : Chat.Externals :=
  {| Chat.req_json := inr (JObj {[ "message" := JStr (str "list my tasks") ]});
     Chat.getSession := inr (Some session);
     Chat.newRequest := inr (JStr (str "req-1"));
     Chat.getMemory := inr tt;
     Chat.createTools := inr chat_tools;
     Chat.openai := inr tt;
     Chat.agent := inr tt;
     Chat.memory_add_user := inr tt;
     Chat.run := inr (framework_response (str "Done.Done."));
     Chat.memory_add_assistant := inr tt |}.

Definition chat_run_fails : Chat.Externals :=
  {| Chat.req_json := inr (JObj {[ "message" := JStr (str "list my tasks") ]});
     Chat.getSession := inr (Some session);
     Chat.newRequest := inr (JStr (str "req-1"));
     Chat.getMemory := inr tt;
     Chat.createTools := inr chat_tools;
     Chat.openai := inr tt;
     Chat.agent := inr tt;
     Chat.memory_add_user := inr tt;
     Chat.run := inl (JStr (str "model unavailable"));
     Chat.memory_add_assistant := inr tt |}.

Definition chat_empty : Chat.Externals :=
  {| Chat.req_json := inr (JObj ∅);
     Chat.getSession := inr None;
     Chat.newRequest := inr (JStr (str "req-1"));
     Chat.getMemory := inr tt;
     Chat.createTools := inr chat_tools;
     Chat.openai := inr tt;
     Chat.agent := inr tt;
     Chat.memory_add_user := inr tt;
     Chat.run := inr (JStr []);
     Chat.memory_add_assistant := inr tt |}.

(** Objects that inherit a constructor, as ordinary objects and errors
    do, and an error whose own [constructor] property is [null]. *)
Definition ordinary (props : gmap string value) : value := JFunction.

Definition odd_error : value :=
  JObj {[ "message" := JStr (str "boom"); "constructor" := JNull ]}.

Definition chat_run_fails_oddly : Chat.Externals :=
  {| Chat.req_json := inr (JObj {[ "message" := JStr (str "list my tasks") ]});
     Chat.getSession := inr (Some session);
     Chat.newRequest := inr (JStr (str "req-1"));
     Chat.getMemory := inr tt;
     Chat.createTools := inr chat_tools;
     Chat.openai := inr tt;
     Chat.agent := inr tt;
     Chat.memory_add_user := inr tt;
     Chat.run := inl odd_error;
     Chat.memory_add_assistant := inr tt |}.

(** Data the resource API answers with, carrying exchanged scopes. *)
Definition disclosing_data : value :=
  JObj {[ "_metadata" :=
            JObj {[ "exchangedScopes" := JStr (str "tasks:read") ]} ]}.

End AgentSamples.

Module AgentFacts.
Import Js Agent AgentSpec.

Lemma trimStart_idem s : trimStart (trimStart s) = trimStart s.
Proof.
  induction s as [|c s IH]; simpl; [done|].
  destruct (is_white_space c) eqn:E; [done|]. simpl. by rewrite E.
Qed.

Lemma trimStart_snoc s c :
  is_white_space c = false → trimStart (s ++ [c]) = trimStart s ++ [c].
Proof.
  intros Hc. induction s as [|d s IH]; simpl.
  - by rewrite Hc.
  - by destruct (is_white_space d).
Qed.

Lemma trimEnd_idem s : trimEnd (trimEnd s) = trimEnd s.
Proof. unfold trimEnd. by rewrite rev_involutive, trimStart_idem. Qed.

Lemma trimStart_trimEnd_trimStart s :
  trimStart (trimEnd (trimStart s)) = trimEnd (trimStart s).
Proof.
  induction s as [|c s IH]; simpl; [done|].
  destruct (is_white_space c) eqn:E; [done|].
  unfold trimEnd. simpl. rewrite trimStart_snoc by done.
  rewrite rev_app_distr. simpl. by rewrite E.
Qed.

Lemma trim_idem s : trim (trim s) = trim s.
Proof.
  unfold trim. by rewrite trimStart_trimEnd_trimStart, trimEnd_idem.
Qed.

Lemma length_trimStart s : length (trimStart s) ≤ length s.
Proof.
  induction s as [|c s IH]; simpl; [done|].
  destruct (is_white_space c); simpl; lia.
Qed.

Lemma length_trim s : length (trim s) ≤ length s.
Proof.
  unfold trim, trimEnd. rewrite length_rev.
  etrans; [apply length_trimStart|]. rewrite length_rev. apply length_trimStart.
Qed.

Lemma length_repeat u n : length (repeat u n) = n * length u.
Proof. induction n as [|n IH]; simpl; [done|]. rewrite length_app. lia. Qed.

Lemma lookup_repeat u n i :
  i < n * length u → repeat u n !! i = u !! (i mod length u).
Proof.
  revert i. induction n as [|n IH]; intros i Hi; [lia|].
  cbn [repeat]. assert (i < length u + n * length u) by lia.
  destruct (decide (i < length u)) as [Hlt|Hge].
  - rewrite lookup_app_l by done. by rewrite Nat.mod_small.
  - rewrite lookup_app_r by lia. rewrite IH by lia.
    f_equal. replace i with ((i - length u) + 1 * length u) at 2 by lia.
    by rewrite Nat.Div0.mod_add.
Qed.

Lemma ceil_div_covers a b : 0 < b → a ≤ ceil_div a b * b.
Proof.
  intros Hb. unfold ceil_div.
  pose proof (Nat.div_mod_eq (a + b - 1) b) as E.
  pose proof (Nat.mod_upper_bound (a + b - 1) b) as U. nia.
Qed.

Lemma slice_0 (s : jsstring) n : slice s 0 n = take n s.
Proof. unfold slice. by rewrite Nat.sub_0_r, drop_0. Qed.

(** The source's tiling test is the specification's. *)
Lemma tiled_iff (T : jsstring) len :
  1 ≤ len ≤ length T →
  slice (repeat (slice T 0 len) (ceil_div (length T) len)) 0 (length T) = T
  ↔ tiles_exactly (take len T) T.
Proof.
  intros Hlen. rewrite !slice_0.
  assert (Hu : length (take len T) = len) by (rewrite length_take; lia).
  assert (Hcov : length T ≤ ceil_div (length T) len * length (take len T))
    by (rewrite Hu; apply ceil_div_covers; lia).
  split.
  - intros E i Hi. rewrite <- E at 1.
    rewrite lookup_take_lt by done. apply lookup_repeat. lia.
  - intros Ht. apply list_eq. intros i.
    destruct (decide (i < length T)) as [Hi|Hi].
    + rewrite lookup_take_lt by done. rewrite lookup_repeat by lia.
      symmetry. by apply Ht.
    + rewrite lookup_take_ge by lia. symmetry. apply lookup_ge_None. lia.
Qed.

Lemma scan_Some (T : jsstring) len todo r :
  1 ≤ len → len + todo ≤ S (length T / 2) →
  scan T len todo = Some r →
  ∃ k, len ≤ k < len + todo ∧ tiles_exactly (take k T) T
       ∧ (∀ j, len ≤ j < k → ¬ tiles_exactly (take j T) T)
       ∧ r = trim (take k T).
Proof.
  revert len. induction todo as [|todo IH]; intros len H1 H2; simpl; [done|].
  assert (length T / 2 ≤ length T) by (apply Nat.Div0.div_le_upper_bound; lia).
  case_bool_decide as E.
  - intros [= <-]. exists len. rewrite slice_0.
    split_and!; [lia|lia|by apply tiled_iff; [lia|]|intros; lia|done].
  - intros Hs. destruct (IH (S len)) as (k & ? & ? & Hmin & ?); [lia|lia|done|].
    exists k. split_and!; [lia|lia|done| |done].
    intros j Hj. destruct (decide (j = len)) as [->|].
    + intros Ht. apply E. apply tiled_iff; [lia|done].
    + apply Hmin. lia.
Qed.

Lemma scan_None (T : jsstring) len todo :
  1 ≤ len → len + todo ≤ S (length T / 2) →
  scan T len todo = None →
  ∀ j, len ≤ j < len + todo → ¬ tiles_exactly (take j T) T.
Proof.
  revert len. induction todo as [|todo IH]; intros len H1 H2; simpl; [lia|].
  assert (length T / 2 ≤ length T) by (apply Nat.Div0.div_le_upper_bound; lia).
  case_bool_decide as E; [done|].
  intros Hs j Hj. destruct (decide (j = len)) as [->|].
  - intros Ht. apply E. apply tiled_iff; [lia|done].
  - apply (IH (S len)); [lia|lia|done|lia].
Qed.

(** The source computes one of the three outcomes of the specification. *)
Lemma extractResponseText_normalized content :
  normalized (trim content) (extractResponseText content).
Proof.
  unfold extractResponseText.
  destruct (scan (trim content) 1 (length (trim content) / 2)) as [r|] eqn:Hs.
  - apply scan_Some in Hs as (k & ? & ? & ? & ->); [|lia..].
    apply by_tiling; [lia|done|naive_solver lia].
  - assert (no_tiling (trim content)) as Hno.
    { intros len Hlen. eapply scan_None; [| |exact Hs|]; lia. }
    rewrite slice_0. unfold slice_from.
    destruct (bool_decide (50 < _) && bool_decide (_ = _)) eqn:Hb.
    + apply andb_prop in Hb as [?%bool_decide_eq_true ?%bool_decide_eq_true].
      by apply by_halves.
    + apply unchanged; [done|]. intros [? ?].
      apply andb_false_iff in Hb as [Hb|Hb];
        apply bool_decide_eq_false in Hb; done.
Qed.

(** The three outcomes exclude one another: the specification is a function. *)
Lemma normalized_deterministic T r1 r2 :
  normalized T r1 → normalized T r2 → r1 = r2.
Proof.
  intros [l1 B1 T1 M1|N1 H1|N1 H1] [l2 B2 T2 M2|N2 H2|N2 H2]; try done.
  - destruct (Nat.lt_trichotomy l1 l2) as [?|[->|?]]; [|done|].
    + exfalso. apply (M2 l1); [lia|done].
    + exfalso. apply (M1 l2); [lia|done].
  - exfalso. by apply (N2 l1).
  - exfalso. by apply (N2 l1).
  - exfalso. by apply (N1 l2).
  - exfalso. by apply (N1 l2).
Qed.

Lemma extractResponseText_trim content :
  extractResponseText (trim content) = extractResponseText content.
Proof. unfold extractResponseText. by rewrite trim_idem. Qed.

(** C3. The normalizer follows the algorithm of section 4.5: on the
    trimmed text T of length L it returns trim(T[0:len]) for the smallest
    len in 1..L/2 whose unit tiles T exactly; failing that, the trimmed
    first half when L > 50 and the trimmed halves agree; and T itself
    otherwise. These outcomes determine the result, and
    "Hello worldHello world", "AAA" and "Hello" are mapped to
    "Hello world", "A" and "Hello". *)
Theorem extractResponseText_algorithm :
  (∀ content r,
     normalized (trim content) r ↔ r = extractResponseText content)
  ∧ extractResponseText (str "Hello worldHello world") = str "Hello world"
  ∧ extractResponseText (str "AAA") = str "A"
  ∧ extractResponseText (str "Hello") = str "Hello".
Proof.
  split_and!; [|by vm_compute..].
  intros content r. split.
  - intros Hr. eapply normalized_deterministic; [exact Hr|].
    apply extractResponseText_normalized.
  - intros ->. apply extractResponseText_normalized.
Qed.

(** C2, as stated, fails: "aa aa aa" is collapsed to "aa" (the unit
    "aa " trimmed), and "aa" is collapsed again to "a". *)
Lemma extractResponseText_not_idempotent :
  extractResponseText (str "aa aa aa") = str "aa"
  ∧ extractResponseText (str "aa") = str "a"
  ∧ extractResponseText (extractResponseText (str "aa aa aa"))
    ≠ extractResponseText (str "aa aa aa").
Proof. split_and!; by vm_compute. Qed.

(** The result of the normalizer carries no surrounding white space. *)
Lemma extractResponseText_trimmed content :
  trim (extractResponseText content) = extractResponseText content.
Proof.
  destruct (extractResponseText_normalized content) as [len _ _ _|_ _|_ _];
    apply trim_idem.
Qed.

(** A text without surrounding white space is left as it is exactly when
    no prefix of at most half its length tiles it and the halves check
    fails: the two collapsing outcomes return a strictly shorter text. *)
Lemma extractResponseText_fixed_iff (O : jsstring) :
  trim O = O →
  extractResponseText O = O ↔ no_tiling O ∧ ¬ equal_halves O.
Proof.
  intros Htrim. split.
  - assert (length O / 2 ≤ length O) as Hhalf
      by (apply Nat.Div0.div_le_upper_bound; lia).
    assert (∀ k, 1 ≤ k ≤ length O / 2 → trim (take k O) ≠ O) as Hshorter.
    { intros k Hk E. apply (f_equal length) in E.
      pose proof (length_trim (take k O)) as Hl. rewrite length_take in Hl.
      assert (length O ≤ length O / 2) as Hle by lia.
      pose proof (Nat.div_lt (length O) 2). lia. }
    pose proof (extractResponseText_normalized O) as Hn. rewrite Htrim in Hn.
    destruct Hn as [len Hb _ _|_ [H50 _]|Hno Hnh]; intros Hfix.
    + by destruct (Hshorter len Hb).
    + destruct (Hshorter (length O / 2)); [|done].
      split; [|done]. apply Nat.div_le_lower_bound; lia.
    + done.
  - intros [Hno Hnh].
    eapply normalized_deterministic; [apply extractResponseText_normalized|].
    rewrite Htrim. by apply unchanged.
Qed.

(** C2, amended. Normalizing twice gives the same as normalizing once
    exactly when the output of the first pass has no exact tiling by a
    prefix of at most half its length and fails the halves check. That is
    so for every input the normalizer only trims, and for inputs it
    collapses to a text that cannot be collapsed again, such as
    "Hello worldHello world" and "AAA". *)
Theorem extractResponseText_idempotent_iff :
  (∀ T,
     extractResponseText (extractResponseText T) = extractResponseText T
     ↔ no_tiling (extractResponseText T)
       ∧ ¬ equal_halves (extractResponseText T))
  ∧ (∀ T, no_tiling (trim T) → ¬ equal_halves (trim T) →
       extractResponseText T = trim T
       ∧ extractResponseText (extractResponseText T) = extractResponseText T)
  ∧ extractResponseText (str "Hello worldHello world") = str "Hello world"
  ∧ extractResponseText (extractResponseText (str "Hello worldHello world"))
    = extractResponseText (str "Hello worldHello world")
  ∧ extractResponseText (extractResponseText (str "AAA"))
    = extractResponseText (str "AAA").
Proof.
  split_and!; [| |by vm_compute..].
  - intros T. apply extractResponseText_fixed_iff, extractResponseText_trimmed.
  - intros T Hno Hhalves.
    assert (extractResponseText T = trim T) as E.
    { eapply normalized_deterministic; [apply extractResponseText_normalized|].
      by apply unchanged. }
    split; [done|]. rewrite E at 1. apply extractResponseText_trim.
Qed.

Lemma extractResponseText_idempotent_iff_witness :
  extractResponseText (extractResponseText (str "Hello worldHello world"))
  = extractResponseText (str "Hello worldHello world")
  ∧ extractResponseText (extractResponseText (str "Hello"))
    = extractResponseText (str "Hello").
Proof.
  destruct extractResponseText_idempotent_iff as (Hiff & Hkept & _).
  split.
  - apply (Hiff (str "Hello worldHello world")).
    change (extractResponseText (str "Hello worldHello world"))
      with (str "Hello world").
    split.
    + intros len Hlen. apply (scan_None (str "Hello world") 1 5);
        [lia|vm_compute; lia|by vm_compute|].
      change (length (str "Hello world") / 2) with 5 in Hlen. lia.
    + intros [H50 _]. vm_compute in H50. lia.
  - apply (Hkept (str "Hello")).
    + intros len Hlen. apply (scan_None (trim (str "Hello")) 1 2);
        [lia|vm_compute; lia|by vm_compute|].
      change (length (trim (str "Hello")) / 2) with 2 in Hlen. lia.
    + intros [H50 _]. vm_compute in H50. lia.
Defined.

End AgentFacts.

(* ===================================================================== *)
(** * Facts about the claims normalizer and the ingress verifier *)
(* ===================================================================== *)

Module ApiAuthFacts.
Import Js Eff ApiAuth.

Lemma same_value_zero_eq a b :
  primitive a → same_value_zero a b = true ↔ a = b.
Proof.
  destruct a, b; simpl; try done; intros _;
    rewrite bool_decide_eq_true; naive_solver.
Qed.

Lemma existsb_same_value_zero v seen :
  primitive v → existsb (same_value_zero v) seen = true ↔ v ∈ seen.
Proof.
  intros Hv. rewrite existsb_exists. split.
  - intros (x & Hx & E). apply same_value_zero_eq in E as ->; [|done].
    by apply list_elem_of_In.
  - intros Hin. exists v. split; [by apply list_elem_of_In|].
    by apply same_value_zero_eq.
Qed.

Lemma fold_set_add xs seen :
  Forall primitive xs → NoDup seen →
  NoDup (fold_left set_add xs seen)
  ∧ ∀ v, v ∈ fold_left set_add xs seen ↔ v ∈ seen ∨ v ∈ xs.
Proof.
  revert seen. induction xs as [|x xs IH]; intros seen Hp Hnd; simpl.
  - split; [done|]. intros v. rewrite elem_of_nil. naive_solver.
  - apply Forall_cons in Hp as [Hx Hp]. unfold set_add at 2 4.
    destruct (existsb (same_value_zero x) seen) eqn:E.
    + apply existsb_same_value_zero in E; [|done].
      destruct (IH seen Hp Hnd) as [? Hin]. split; [done|].
      intros v. rewrite Hin, elem_of_cons. naive_solver.
    + assert (x ∉ seen) as Hnin.
      { intros Hin. apply existsb_same_value_zero in Hin; [|done]. congruence. }
      destruct (IH (seen ++ [x]) Hp) as [? Hin].
      { apply NoDup_app. split_and!; [done| |apply NoDup_singleton].
        intros y Hy ->%list_elem_of_singleton. done. }
      split; [done|]. intros v.
      rewrite Hin, elem_of_app, list_elem_of_singleton, elem_of_cons.
      naive_solver.
Qed.

(** [new Set] keeps exactly the members of a list of primitives, once each. *)
Lemma new_Set_spec xs :
  Forall primitive xs →
  NoDup (new_Set xs) ∧ ∀ v, v ∈ new_Set xs ↔ v ∈ xs.
Proof.
  intros Hp. destruct (fold_set_add xs [] Hp (NoDup_nil_2)) as [? Hin].
  split; [done|]. intros v. unfold new_Set. rewrite Hin, elem_of_nil.
  naive_solver.
Qed.

Lemma elem_of_rev (x : N) l : x ∈ rev l ↔ x ∈ l.
Proof. rewrite !list_elem_of_In. symmetry. apply in_rev. Qed.

Lemma join_split_at sep cur s :
  join sep (split_at sep cur s) = rev cur ++ s.
Proof.
  revert cur. induction s as [|c s IH]; intros cur; simpl.
  - by rewrite app_nil_r.
  - destruct (c =? sep)%N eqn:E.
    + apply N.eqb_eq in E as ->. specialize (IH []).
      destruct (split_at sep [] s) eqn:Es; simpl in *.
      * by destruct s; simpl in Es; [|destruct (_ =? _)%N].
      * by rewrite IH.
    + rewrite IH. simpl. by rewrite <- app_assoc.
Qed.

Lemma split_at_no_sep sep cur s t :
  sep ∉ cur → t ∈ split_at sep cur s → sep ∉ t.
Proof.
  revert cur. induction s as [|c s IH]; intros cur Hcur; simpl.
  - intros ->%list_elem_of_singleton. by rewrite elem_of_rev.
  - destruct (c =? sep)%N eqn:E.
    + intros [->|Hin]%elem_of_cons; [by rewrite elem_of_rev|].
      apply (IH []); [apply not_elem_of_nil|done].
    + apply IH. apply N.eqb_neq in E. rewrite elem_of_cons. naive_solver.
Qed.

(** [split] cuts a string at every space and nowhere else. *)
Lemma split_spec s :
  join SPACE (split s SPACE) = s ∧ ∀ t, t ∈ split s SPACE → SPACE ∉ t.
Proof.
  split; [apply join_split_at|].
  intros t. apply split_at_no_sep, not_elem_of_nil.
Qed.

(** C1. When the scope claim of the verified payload is a string and its
    permissions claim a list of strings, the scopes of the principal hold
    no duplicate and are exactly the non-empty space-delimited tokens of
    the scope claim together with the permissions; for the scope claim
    "a b a" and the permissions ["b","c"] they are a, b and c. *)
Theorem getAuth_scopes_union env context s ps :
  let user := user_of (context_get context "auth0Token") in
  get user "scope" = JStr s →
  get user "permissions" = JArr (JStr <$> ps) →
  let result := scopes (getAuth env context) in
  NoDup result
  ∧ (∀ v, v ∈ result ↔
          ∃ t, v = JStr t ∧ ((t ∈ split s SPACE ∧ t ≠ []) ∨ t ∈ ps))
  ∧ (s = str "a b a" → ps = [str "b"; str "c"] →
     result = [JStr (str "a"); JStr (str "b"); JStr (str "c")]
     ∧ ∀ t, JStr t ∈ result ↔ t = str "a" ∨ t = str "b" ∨ t = str "c").
Proof.
  intros user Hscope Hperm result.
  assert (result =
          new_Set ((JStr <$> filter (λ t : jsstring, t ≠ []) (split s SPACE))
                   ++ (JStr <$> ps))) as ->.
  { unfold result, getAuth. cbn [scopes]. fold user. by rewrite Hscope, Hperm. }
  match goal with |- context [new_Set ?xs] =>
    destruct (new_Set_spec xs) as [Hnd Hin] end.
  { apply Forall_app. split; apply Forall_fmap, Forall_true; done. }
  split_and!; [done| |].
  - intros v. rewrite Hin, elem_of_app, !list_elem_of_fmap.
    setoid_rewrite list_elem_of_filter. naive_solver.
  - intros -> ->.
    assert (new_Set
              ((JStr <$> filter (λ t : jsstring, t ≠ [])
                           (split (str "a b a") SPACE))
               ++ (JStr <$> [str "b"; str "c"]))
            = [JStr (str "a"); JStr (str "b"); JStr (str "c")]) as E
      by (by vm_compute).
    rewrite E. split; [done|]. intros t.
    rewrite !elem_of_cons, elem_of_nil. naive_solver.
Qed.

Lemma getAuth_scopes_union_witness :
  scopes (getAuth Samples.env_on (Samples.verified Samples.scoped_payload))
  = [JStr (str "a"); JStr (str "b"); JStr (str "c")].
Proof.
  destruct (getAuth_scopes_union Samples.env_on
              (Samples.verified Samples.scoped_payload)
              (str "a b a") [str "b"; str "c"] eq_refl eq_refl)
    as (_ & _ & H).
  exact (proj1 (H eq_refl eq_refl)).
Defined.

(** C9. A verified payload whose subject is not a non-empty string, in
    particular one without a subject claim, yields the user "anonymous";
    without any verified payload the user is "anonymous", the organization
    is the configured default and the scope list is empty. *)
Theorem getAuth_anonymous env context :
  let user := user_of (context_get context "auth0Token") in
  ((∀ s, get user "sub" = JStr s → s = []) →
   userId (getAuth env context) = JStr (str "anonymous"))
  ∧ (∀ payload, context_get context "auth0Token" = JObj payload →
       payload !! "payload" = None → payload !! "sub" = None →
       userId (getAuth env context) = JStr (str "anonymous"))
  ∧ (vars context !! "auth0Token" = None →
     getAuth env context =
       {| userId := JStr (str "anonymous"); orgId := API_DEFAULT_ORG env;
          scopes := []; user := JObj ∅ |}).
Proof.
  intros user. split_and!.
  - intros Hsub. unfold getAuth. cbn [userId]. fold user.
    destruct (get user "sub") as [| | | |s| | |] eqn:E; try done.
    rewrite (Hsub s eq_refl). done.
  - intros payload Htoken Hp Hs. unfold getAuth. cbn [userId].
    rewrite Htoken. unfold user_of, opt_get, get. rewrite Hp. simpl.
    by rewrite Hs.
  - intros Hnone. unfold getAuth, context_get. rewrite Hnone. done.
Qed.

Lemma getAuth_anonymous_witness :
  userId (getAuth Samples.env_on (Samples.verified Samples.scoped_payload))
  = JStr (str "anonymous")
  ∧ getAuth Samples.env_on Samples.bare_request =
      {| userId := JStr (str "anonymous"); orgId := JStr (str "demo-org");
         scopes := []; user := JObj ∅ |}.
Proof.
  split.
  - apply (getAuth_anonymous Samples.env_on
             (Samples.verified Samples.scoped_payload)).
    intros s. vm_compute. discriminate.
  - apply (getAuth_anonymous Samples.env_on Samples.bare_request).
    reflexivity.
Defined.

Example strip_bearer_examples :
  strip_bearer (str "Bearer abc") = str "abc"
  ∧ strip_bearer (str "bEARER   abc ") = str "abc "
  ∧ strip_bearer (str "Bearerabc") = str "Bearerabc"
  ∧ strip_bearer (str "Basic abc") = str "Basic abc"
  ∧ trim (strip_bearer (str "Bearer  ")) = [].
Proof. split_and!; by vm_compute. Qed.

Lemma unauthorized_shape env message :
  status (unauthorized env message) = 401%Z
  ∧ get (body (unauthorized env message)) "error" = JStr (str message)
  ∧ headers (unauthorized env message) !! "WWW-Authenticate"
    = Some (str "Bearer resource=" ++ [QUOTE]
            ++ API_AUTH0_AUDIENCE env ++ [QUOTE]).
Proof. split_and!; [done| |done]. simpl. by rewrite lookup_singleton_eq. Qed.

(** C4, as stated, fails: the message of the missing-token response is
    "Unauthorized: Missing access token"; and a header with credentials
    of another scheme, which carries no bearer token, is not answered
    before verification but submitted to the verifier whole and answered
    as an invalid token. *)
Lemma authMiddleware_claimed_message_differs :
  (∃ t r, authMiddleware Samples.env_on Samples.reject_all
            Samples.bare_request [] = (t, inr (Respond r))
          ∧ get (body r) "error"
            = JStr (str "Unauthorized: Missing access token")
          ∧ get (body r) "error" ≠ JStr (str "Unauthorized: missing token"))
  ∧ (∃ t r, authMiddleware Samples.env_on Samples.reject_all
              Samples.basic_request [] = (t, inr (Respond r))
            ∧ VerifyAccessToken (str "Basic dXNlcjpwdw==") ∈ t
            ∧ attempted_verification t
            ∧ get (body r) "error"
              = JStr (str "Unauthorized: Invalid access token")).
Proof.
  split.
  - exists [ConsoleLog "No access token provided"],
      (unauthorized Samples.env_on "Unauthorized: Missing access token").
    split_and!; [reflexivity|by vm_compute|by vm_compute].
  - exists [ConsoleLog "Verifying access token...";
            VerifyAccessToken (str "Basic dXNlcjpwdw==");
            ConsoleLog "Error verifying access token:"],
      (unauthorized Samples.env_on "Unauthorized: Invalid access token").
    assert (VerifyAccessToken (str "Basic dXNlcjpwdw==")
            ∈ [ConsoleLog "Verifying access token...";
               VerifyAccessToken (str "Basic dXNlcjpwdw==");
               ConsoleLog "Error verifying access token:"]) as Hin
      by apply list_elem_of_further, list_elem_of_here.
    split_and!; [reflexivity|exact Hin|by eexists|by vm_compute].
Qed.

End ApiAuthFacts.

(* ===================================================================== *)
(** * Facts about the task-creation tool *)
(* ===================================================================== *)

Module McpServerFacts.
Import Js Eff McpServer.

(** The trace of the handler: two log lines and one forwarded call, whose
    body is [taskData], whatever the resource API answers. *)
Lemma tv_create_task_trace api stringify args extra :
  fst (tv_create_task api stringify args extra []) =
    [ Log "tv_create_task original args:" (JObj args);
      Log "tv_create_task transformed args:"
        (JObj (taskData args (createSession extra)));
      CallApi (str "/tasks")
        (JObj {[ "method" := JStr (str "POST");
                 "body" := JObj (taskData args (createSession extra));
                 "session" := createSession extra ]}) ].
Proof.
  unfold tv_create_task, callApi, emit, modify, mbind, M_bind, bind. simpl.
  by destruct (api _ _).
Qed.

Lemma taskData_other args session k :
  k ≠ "title" → k ≠ "ownerId" → k ≠ "name" →
  taskData args session !! k = args !! k.
Proof.
  intros. unfold taskData.
  by rewrite lookup_delete_ne, !lookup_insert_ne.
Qed.

Lemma js_or_falsy a b : truthy a = false → js_or a b = b.
Proof. unfold js_or. by intros ->. Qed.

Lemma createSession_null extra :
  truthy (opt_get extra "authInfo") = false → createSession extra = JNull.
Proof. unfold createSession. by intros ->. Qed.

Lemma no_subject_null : no_subject JNull.
Proof. done. Qed.

(** C8. When the arguments of the task-creation tool carry the alias
    [name] and no [title], the body forwarded to the resource API has
    [title] equal to the alias's value and no [name] field; for
    [{name: "X"}] the title is "X". *)
Theorem tv_create_task_alias api stringify args extra v :
  args !! "title" = None →
  args !! "name" = Some v →
  ∃ body,
    fst (tv_create_task api stringify args extra []) =
      [ Log "tv_create_task original args:" (JObj args);
        Log "tv_create_task transformed args:" (JObj body);
        CallApi (str "/tasks")
          (JObj {[ "method" := JStr (str "POST"); "body" := JObj body;
                   "session" := createSession extra ]}) ]
    ∧ body !! "title" = Some v
    ∧ body !! "name" = None
    ∧ (v = JStr (str "X") → get (JObj body) "title" = JStr (str "X")).
Proof.
  intros Htitle Hname. exists (taskData args (createSession extra)).
  assert (taskData args (createSession extra) !! "title" = Some v) as Ht.
  { unfold taskData. rewrite lookup_delete_ne, lookup_insert_ne by done.
    rewrite lookup_insert_eq. unfold get. by rewrite Htitle, Hname. }
  split_and!.
  - apply tv_create_task_trace.
  - done.
  - unfold taskData. apply lookup_delete_eq.
  - intros ->. unfold get. by rewrite Ht.
Qed.

Lemma tv_create_task_alias_witness :
  ∃ body,
    fst (tv_create_task Samples.api_ok Samples.stringify_stub
           Samples.alias_args Samples.extra_anonymous []) =
      [ Log "tv_create_task original args:" (JObj Samples.alias_args);
        Log "tv_create_task transformed args:" (JObj body);
        CallApi (str "/tasks")
          (JObj {[ "method" := JStr (str "POST"); "body" := JObj body;
                   "session" := createSession Samples.extra_anonymous ]}) ]
    ∧ body !! "title" = Some (JStr (str "X"))
    ∧ body !! "name" = None.
Proof.
  destruct (tv_create_task_alias Samples.api_ok Samples.stringify_stub
              Samples.alias_args Samples.extra_anonymous (JStr (str "X"))
              eq_refl eq_refl) as (body & Htrace & Htitle & Hname & _).
  by exists body.
Defined.

(** C10. When the arguments of the task-creation tool supply no [ownerId]
    and the session has no subject (the null session included), the body
    forwarded to the resource API has [ownerId] "default-user", while the
    principal the other handlers report for that session is "anonymous",
    a different sentinel. *)
Theorem tv_create_task_default_owner api stringify args extra :
  args !! "ownerId" = None →
  no_subject (createSession extra) →
  ∃ body,
    fst (tv_create_task api stringify args extra []) =
      [ Log "tv_create_task original args:" (JObj args);
        Log "tv_create_task transformed args:" (JObj body);
        CallApi (str "/tasks")
          (JObj {[ "method" := JStr (str "POST"); "body" := JObj body;
                   "session" := createSession extra ]}) ]
    ∧ body !! "ownerId" = Some (JStr (str "default-user"))
    ∧ principal_of (createSession extra) = JStr (str "anonymous")
    ∧ JStr (str "default-user") ≠ JStr (str "anonymous").
Proof.
  intros Howner Hsub. exists (taskData args (createSession extra)).
  split_and!.
  - apply tv_create_task_trace.
  - unfold taskData. rewrite lookup_delete_ne by done.
    rewrite lookup_insert_eq. f_equal.
    assert (get (JObj args) "ownerId" = JUndefined) as ->
      by (unfold get; by rewrite Howner).
    rewrite (js_or_falsy JUndefined) by done. by apply js_or_falsy.
  - by apply js_or_falsy.
  - by vm_compute.
Qed.

Lemma tv_create_task_default_owner_witness :
  createSession Samples.extra_anonymous = JNull
  ∧ ∃ body,
      fst (tv_create_task Samples.api_ok Samples.stringify_stub
             Samples.alias_args Samples.extra_anonymous []) =
        [ Log "tv_create_task original args:" (JObj Samples.alias_args);
          Log "tv_create_task transformed args:" (JObj body);
          CallApi (str "/tasks")
            (JObj {[ "method" := JStr (str "POST"); "body" := JObj body;
                     "session" := JNull ]}) ]
      ∧ body !! "ownerId" = Some (JStr (str "default-user")).
Proof.
  split; [reflexivity|].
  destruct (tv_create_task_default_owner Samples.api_ok
              Samples.stringify_stub Samples.alias_args
              Samples.extra_anonymous eq_refl eq_refl)
    as (body & Htrace & Howner & _).
  by exists body.
Defined.

End McpServerFacts.

(* ===================================================================== *)
(** * Facts about the bridge *)
(* ===================================================================== *)

Module McpClientFacts.
Import Js Eff McpClient.

Ltac run_bridge :=
  unfold callTool, cleanup, createMCPClient, await, when, parse, Date_now,
    set_tokenExchangeTime, set_exchangedScopes, set_client, set_transport,
    emit, gets, modify, try_catch, throw, mbind, M_bind, bind, mret, M_ret,
    ret;
  cbn.

Section Calls.
Variable accessToken : value.
Variable clock : nat → Z.
Variable JSON_parse : value → option value.

Local Abbreviation callTool := (callTool accessToken clock JSON_parse).
Local Abbreviation step := (step accessToken clock JSON_parse).
Local Abbreviation run := (run accessToken clock JSON_parse).
Local Abbreviation disclosure := (disclosure JSON_parse).

(** Reading the message of an error that is not [null] or [undefined]
    goes through. *)
Lemma message_of_proper error (w : World) :
  BridgeObs.nullish error = false →
  message_of error w = (w, inr (get error "message")).
Proof. by destruct error. Qed.

(** A rejected remote call fails (with the same error when its message
    can be read) and records nothing. *)
Lemma callTool_rejected name args error w :
  ∃ w' raised, callTool name args (inl error) w = (w', inl raised)
        ∧ (BridgeObs.nullish error = false → raised = error)
        ∧ exchangedScopes w' = exchangedScopes w
        ∧ tokenExchangeTime w' = tokenExchangeTime w.
Proof.
  run_bridge. unfold message_of.
  destruct (truthy accessToken && _), error; cbn;
    (eexists _, _; split_and!; [reflexivity|done..]).
Qed.

(** A resolved remote call is returned, whatever its payload. *)
Lemma callTool_resolved name args result w :
  ∃ w', callTool name args (inr result) w = (w', inr result)
        ∧ exchangedScopes w' =
            (if truthy (exchangedScopes w) then exchangedScopes w
             else default (exchangedScopes w) (disclosure (inr result)))
        ∧ tokenExchangeTime w' =
            (if truthy accessToken && bool_decide (tokenExchangeTime w = None)
             then if (clock (S (ticks w)) =? 0)%Z then None
                  else Some (clock (S (S (ticks w))) - clock (S (ticks w)))%Z
             else tokenExchangeTime w).
Proof.
  run_bridge. unfold McpClient.disclosure.
  destruct (truthy accessToken) eqn:Ha;
    destruct (tokenExchangeTime w) as [t|] eqn:Ht;
    destruct (truthy (exchangedScopes w)) eqn:Hes; cbn.
  all: repeat (case_bool_decide; simplify_eq/=).
  all: repeat (case_match; simplify_eq/=;
               try rewrite Hes in *; try rewrite Ht in *; simplify_eq/=);
    eauto.
Qed.

Lemma step_exchangedScopes w c :
  exchangedScopes (step w c) =
    if truthy (exchangedScopes w) then exchangedScopes w
    else default (exchangedScopes w) (disclosure (reply c)).
Proof.
  unfold McpClient.step. destruct (reply c) as [error|result].
  - destruct (callTool_rejected (tool c) (arguments c) error w)
      as (w' & raised & E & _ & Hs & _).
    rewrite E. cbn [fst]. rewrite Hs. by destruct (truthy _).
  - destruct (callTool_resolved (tool c) (arguments c) result w)
      as (w' & E & Hs & _).
    rewrite E. cbn [fst]. by rewrite Hs.
Qed.

Lemma step_tokenExchangeTime w c :
  tokenExchangeTime (step w c) =
    match reply c with
    | inl _ => tokenExchangeTime w
    | inr _ =>
        if truthy accessToken && bool_decide (tokenExchangeTime w = None)
        then if (clock (S (ticks w)) =? 0)%Z then None
             else Some (clock (S (S (ticks w))) - clock (S (ticks w)))%Z
        else tokenExchangeTime w
    end.
Proof.
  unfold McpClient.step. destruct (reply c) as [error|result].
  - destruct (callTool_rejected (tool c) (arguments c) error w)
      as (w' & raised & E & _ & _ & Ht).
    rewrite E. cbn [fst]. by rewrite Ht.
  - destruct (callTool_resolved (tool c) (arguments c) result w)
      as (w' & E & _ & Ht).
    rewrite E. cbn [fst]. by rewrite Ht.
Qed.

Lemma disclosure_truthy r v : disclosure r = Some v → truthy v = true.
Proof.
  unfold McpClient.disclosure. destruct r as [|result]; [done|].
  destruct (truthy (opt_get _ "text")); [|done].
  destruct (JSON_parse _) as [parsed|]; [|done]. cbn.
  destruct (truthy (opt_get _ "exchangedScopes")) eqn:E; [|done].
  by intros [= <-].
Qed.

Lemma run_cons c cs w : run (c :: cs) w = run cs (step w c).
Proof. done. Qed.

Lemma run_app cs cs' w : run (cs ++ cs') w = run cs' (run cs w).
Proof. unfold McpClient.run. by rewrite fold_left_app. Qed.

Lemma run_exchangedScopes_kept cs w :
  truthy (exchangedScopes w) = true →
  exchangedScopes (run cs w) = exchangedScopes w.
Proof.
  revert w. induction cs as [|c cs IH]; intros w Hw; [done|].
  assert (exchangedScopes (step w c) = exchangedScopes w) as E
    by (by rewrite step_exchangedScopes, Hw).
  rewrite run_cons, IH; [done|]. by rewrite E.
Qed.

Lemma run_exchangedScopes_first cs w :
  exchangedScopes w = JNull →
  exchangedScopes (run cs w)
  = default JNull (head (omap (λ c, disclosure (reply c)) cs)).
Proof.
  revert w. induction cs as [|c cs IH]; intros w Hw; [done|].
  rewrite run_cons.
  pose proof (step_exchangedScopes w c) as E. rewrite Hw in E.
  cbn [truthy] in E. cbn [omap list_omap].
  destruct (disclosure (reply c)) as [v|] eqn:Hd; cbn [default head] in *.
  - rewrite run_exchangedScopes_kept; [done|].
    rewrite E. by eapply disclosure_truthy.
  - by apply IH.
Qed.

Lemma run_tokenExchangeTime_kept cs w t :
  tokenExchangeTime w = Some t → tokenExchangeTime (run cs w) = Some t.
Proof.
  revert w. induction cs as [|c cs IH]; intros w Hw; [done|].
  rewrite run_cons. apply IH. rewrite step_tokenExchangeTime, Hw.
  rewrite bool_decide_eq_false_2 by done.
  rewrite andb_false_r. by destruct (reply c).
Qed.

(** C6. Over the calls a request awaits on one bridge, the recorded
    scopes are those of the first reply that discloses any (a truthy
    [_metadata.exchangedScopes] in the JSON text of the first content
    block) and [null] when none does; once they are not [null] no call
    changes them; a reply that discloses nothing leaves them as they
    were; and a resolved remote call is returned to the caller whatever
    its payload, parseable or not. *)
Theorem exchangedScopes_first_wins cs :
  exchangedScopes (run cs initial)
  = default JNull (head (omap (λ c, disclosure (reply c)) cs))
  ∧ (∀ c, exchangedScopes (run cs initial) ≠ JNull →
         exchangedScopes (step (run cs initial) c)
         = exchangedScopes (run cs initial))
  ∧ (∀ w c, disclosure (reply c) = None →
           exchangedScopes (step w c) = exchangedScopes w)
  ∧ (∀ w name args result,
       snd (callTool name args (inr result) w) = inr result).
Proof.
  pose proof (run_exchangedScopes_first cs initial eq_refl) as Hfirst.
  split_and!.
  - done.
  - intros c Hset. rewrite step_exchangedScopes.
    destruct (head _) as [v|] eqn:Hhead; rewrite Hfirst in *; [|done].
    apply head_Some_elem_of, list_elem_of_omap in Hhead as (c' & _ & Hd).
    cbn. by rewrite (disclosure_truthy _ _ Hd).
  - intros w c Hd. rewrite step_exchangedScopes, Hd.
    by destruct (truthy _).
  - intros w name args result.
    by destruct (callTool_resolved name args result w) as (w' & -> & _).
Qed.

End Calls.

Lemma exchangedScopes_first_wins_witness :
  exchangedScopes
    (run BridgeSamples.token BridgeSamples.clock BridgeSamples.parse
       [BridgeSamples.rejected; BridgeSamples.garbled; BridgeSamples.plain;
        BridgeSamples.discloses_read; BridgeSamples.discloses_write] initial)
  = JStr (str "tasks:read")
  ∧ exchangedScopes
      (step BridgeSamples.token BridgeSamples.clock BridgeSamples.parse
         (run BridgeSamples.token BridgeSamples.clock BridgeSamples.parse
            [BridgeSamples.discloses_read] initial)
         BridgeSamples.discloses_write)
    = JStr (str "tasks:read")
  ∧ exchangedScopes
      (step BridgeSamples.token BridgeSamples.clock BridgeSamples.parse
         initial BridgeSamples.garbled)
    = JNull.
Proof.
  split_and!.
  - exact (proj1 (exchangedScopes_first_wins BridgeSamples.token
                    BridgeSamples.clock BridgeSamples.parse
                    [BridgeSamples.rejected; BridgeSamples.garbled;
                     BridgeSamples.plain; BridgeSamples.discloses_read;
                     BridgeSamples.discloses_write])).
  - destruct (exchangedScopes_first_wins BridgeSamples.token
                BridgeSamples.clock BridgeSamples.parse
                [BridgeSamples.discloses_read]) as (_ & Hkept & _).
    rewrite Hkept; [reflexivity|]. vm_compute. discriminate.
  - destruct (exchangedScopes_first_wins BridgeSamples.token
                BridgeSamples.clock BridgeSamples.parse [])
      as (_ & _ & Hnoop & _).
    rewrite Hnoop; reflexivity.
Defined.

(** C7, on the code. On a bridge built with a credential, a first call
    that is rejected records no latency, and the call after it, which
    resolves, records one, taken between two readings of that later
    call. Had the first call resolved, the latency would have been that
    of the first call, and the later call would have left it alone. The
    comments in [callTool] read "on first call with access token" and
    "if this was the first call". *)
Theorem tokenExchangeTime_measured_on_later_call :
  let clock := BridgeSamples.spreading_clock in
  let bridge := run BridgeSamples.token clock BridgeSamples.parse in
  tokenExchangeTime (bridge [BridgeSamples.rejected] initial) = None
  ∧ tokenExchangeTime
      (bridge [BridgeSamples.rejected; BridgeSamples.plain] initial)
    = Some (Z.sub (clock 5) (clock 4))
  ∧ tokenExchangeTime (bridge [BridgeSamples.plain] initial)
    = Some (Z.sub (clock 2) (clock 1))
  ∧ tokenExchangeTime
      (bridge [BridgeSamples.plain; BridgeSamples.plain] initial)
    = Some (Z.sub (clock 2) (clock 1))
  ∧ Z.sub (clock 5) (clock 4) ≠ Z.sub (clock 2) (clock 1).
Proof. split_and!; by vm_compute. Qed.

(** A failing [client.close()] leaves the [try] block before
    [transport.close()] is reached. *)
Lemma cleanup_stops_at_client_failure remote error w :
  client w = true → client_close remote = inl error →
  BridgeObs.nullish error = false →
  trace (fst (cleanup remote w))
  = trace w ++ [ClientClose; LogError "Cleanup error:"].
Proof.
  intros Hc Herr Hproper. run_bridge. rewrite Hc, Herr. cbn.
  rewrite message_of_proper by done. cbn. by rewrite <- app_assoc.
Qed.

(** C5, on the code: with both handles open and a [client.close()] that
    fails, [cleanup] logs the error and returns without attempting
    [transport.close()]; the failure path of [createMCPClient], on the
    same remote, attempts both closes. *)
Theorem cleanup_skips_transport_close :
  cleanup BridgeSamples.client_close_fails BridgeSamples.connected
  = ({| transport := true; client := true; exchangedScopes := JNull;
        tokenExchangeTime := None; ticks := 0;
        trace := [ClientClose; LogError "Cleanup error:"] |}, inr tt)
  ∧ (TransportClose
     ∉ trace (fst (cleanup BridgeSamples.client_close_fails
                     BridgeSamples.connected)))
  ∧ trace (fst (createMCPClient BridgeSamples.token
                  BridgeSamples.client_close_fails initial))
    = [LogInfo "Connecting to MCP server:"; NewTransport true; NewClient;
       Connect; LogError "MCP connection failed:"; ClientClose;
       TransportClose].
Proof.
  assert (cleanup BridgeSamples.client_close_fails BridgeSamples.connected
          = ({| transport := true; client := true; exchangedScopes := JNull;
                tokenExchangeTime := None; ticks := 0;
                trace := [ClientClose; LogError "Cleanup error:"] |}, inr tt))
    as E by reflexivity.
  split_and!; [exact E| |reflexivity].
  rewrite E. cbn [fst trace]. rewrite !elem_of_cons, elem_of_nil. naive_solver.
Qed.

End McpClientFacts.

(* ===================================================================== *)
(** * More on the ingress verifier, the normalizer and scope enforcement *)
(* ===================================================================== *)

Module ApiAuthMore.
Import Js Eff ApiAuth ApiScope.

Lemma after_prefix_ci_app lit scheme rest :
  lower <$> scheme = lower <$> lit →
  after_prefix_ci lit (scheme ++ rest) = Some rest.
Proof.
  revert scheme. induction lit as [|a lit IH]; intros [|c scheme] E;
    simplify_eq/=; [done|].
  rewrite (proj2 (N.eqb_eq _ _)) by done. by apply IH.
Qed.

Lemma trimStart_white ws s :
  Forall (λ c, is_white_space c = true) ws → trimStart (ws ++ s) = trimStart s.
Proof. induction 1 as [|c ws Hc _ IH]; simpl; [done|]. by rewrite Hc. Qed.

Lemma trimStart_of_trimmed s : trim s = s → trimStart s = s.
Proof.
  intros E. rewrite <- E at 1. unfold trim.
  rewrite AgentFacts.trimStart_trimEnd_trimStart. exact E.
Qed.

(** What [authMiddleware] does, by cases. *)
Lemma authMiddleware_cases env verify context :
  let accessToken := trim (strip_bearer (default [] (authorization context))) in
  authMiddleware env verify context [] =
    if negb (AUTH_ENABLED env) then
      ([Next context], inr (Downstream context))
    else if bool_decide (accessToken = []) then
      ([ConsoleLog "No access token provided"],
       inr (Respond (unauthorized env "Unauthorized: Missing access token")))
    else
      match verify accessToken with
      | inr payload =>
          ([ConsoleLog "Verifying access token...";
            VerifyAccessToken accessToken;
            ConsoleLog "Token verified successfully:";
            Next (context_set context "auth0Token" payload)],
           inr (Downstream (context_set context "auth0Token" payload)))
      | inl error =>
          ([ConsoleLog "Verifying access token...";
            VerifyAccessToken accessToken;
            ConsoleLog "Error verifying access token:"],
           inr (Respond (unauthorized env "Unauthorized: Invalid access token")))
      end.
Proof.
  intros accessToken. unfold authMiddleware. fold accessToken.
  destruct (AUTH_ENABLED env); cbn [negb]; [|done].
  case_bool_decide; [done|].
  unfold try_catch, verifyAccessToken, next, mbind, M_bind, bind, emit, modify.
  by destruct (verify accessToken).
Qed.

(** X1. A header made of the word "Bearer" in any letter case, one or
    more white-space characters and a token without surrounding white
    space yields exactly that token. *)
Theorem bearer_token_extracted scheme ws tok :
  lower <$> scheme = str "bearer" →
  ws ≠ [] → Forall (λ c, is_white_space c = true) ws →
  trim tok = tok →
  trim (strip_bearer (scheme ++ ws ++ tok)) = tok.
Proof.
  intros Hscheme Hws Hwhite Htok. unfold strip_bearer.
  rewrite after_prefix_ci_app by (rewrite Hscheme; by vm_compute).
  destruct ws as [|c ws]; [done|]. apply Forall_cons in Hwhite as [Hc Hwhite].
  cbn [app]. rewrite Hc, trimStart_white by done.
  by rewrite trimStart_of_trimmed.
Qed.

Lemma bearer_token_extracted_witness :
  trim (strip_bearer (str "bEaReR" ++ str "  " ++ str "abc.def.ghi"))
  = str "abc.def.ghi".
Proof.
  apply bearer_token_extracted; [reflexivity|done| |reflexivity].
  repeat constructor.
Defined.

(** X2. In one run the middleware submits at most one token for
    verification: none when authentication is disabled or the extracted
    token is empty, and otherwise the extracted token, which is never
    empty and carries no surrounding white space. *)
Theorem authMiddleware_verifies_once env verify context :
  let accessToken := trim (strip_bearer (default [] (authorization context))) in
  verifications (fst (authMiddleware env verify context []))
  = (if AUTH_ENABLED env && negb (bool_decide (accessToken = []))
     then [accessToken] else [])
  ∧ trim accessToken = accessToken.
Proof.
  intros accessToken. split; [|apply AgentFacts.trim_idem].
  rewrite authMiddleware_cases. fold accessToken.
  destruct (AUTH_ENABLED env); cbn [negb andb]; [|done].
  case_bool_decide; [done|]. by destruct (verify accessToken).
Qed.

(** X3. A request is handed to the rest of the chain only when
    authentication is disabled, with its context untouched, or when the
    verifier accepted the extracted, non-empty token, with the verified
    payload stored under [auth0Token]; every other request is answered
    with status 401, and the middleware itself never throws. *)
Theorem authMiddleware_no_bypass env verify context :
  let accessToken := trim (strip_bearer (default [] (authorization context))) in
  ∃ t o, authMiddleware env verify context [] = (t, inr o)
    ∧ match o with
      | Downstream c =>
          (AUTH_ENABLED env = false ∧ c = context)
          ∨ (AUTH_ENABLED env = true ∧ accessToken ≠ []
             ∧ ∃ payload, verify accessToken = inr payload
                 ∧ c = context_set context "auth0Token" payload)
      | Respond r =>
          AUTH_ENABLED env = true ∧ status r = 401%Z
          ∧ ¬ invoked_next t
          ∧ (accessToken = [] ∨ ∃ error, verify accessToken = inl error)
      end.
Proof.
  intros accessToken. rewrite authMiddleware_cases. fold accessToken.
  destruct (AUTH_ENABLED env); cbn [negb].
  - case_bool_decide as Htok.
    + eexists _, _. split; [done|]. split_and!; [done..| |by left].
      intros [c Hc]. apply list_elem_of_singleton in Hc. discriminate.
    + destruct (verify accessToken) as [error|payload] eqn:Hv.
      * eexists _, _. split; [done|]. split_and!; [done..| |by right; eexists].
        intros [c Hc]. rewrite !elem_of_cons, elem_of_nil in Hc. naive_solver.
      * eexists _, _. split; [done|]. right. split_and!; [done..|by eexists].
  - eexists _, _. split; [done|]. by left.
Qed.

(** X4. When the verifier accepts the token, the context passed on holds
    the verified payload under [auth0Token], every other variable and the
    header as before, and [getAuth] on it reads the principal from that
    payload. *)
Theorem authMiddleware_publishes_payload env verify context payload :
  let accessToken := trim (strip_bearer (default [] (authorization context))) in
  AUTH_ENABLED env = true → accessToken ≠ [] →
  verify accessToken = inr payload →
  ∃ t c, authMiddleware env verify context [] = (t, inr (Downstream c))
    ∧ Next c ∈ t
    ∧ context_get c "auth0Token" = payload
    ∧ (∀ k, k ≠ "auth0Token" → context_get c k = context_get context k)
    ∧ authorization c = authorization context
    ∧ user (getAuth env c) = user_of payload.
Proof.
  intros accessToken Hon Htok Hv. rewrite authMiddleware_cases.
  fold accessToken. rewrite Hon, bool_decide_eq_false_2, Hv by done.
  cbn [negb]. eexists _, _. split; [done|].
  assert (context_get (context_set context "auth0Token" payload) "auth0Token"
          = payload) as Hget.
  { unfold context_get, context_set. cbn. by rewrite lookup_insert_eq. }
  split_and!.
  - rewrite !elem_of_cons. tauto.
  - done.
  - intros k Hk. unfold context_get, context_set. cbn.
    by rewrite lookup_insert_ne.
  - done.
  - unfold getAuth. cbn [user]. by rewrite Hget.
Qed.

Lemma authMiddleware_publishes_payload_witness :
  ∃ t c, authMiddleware Samples.env_on (λ _, inr Samples.scoped_payload)
           Samples.bearer_request [] = (t, inr (Downstream c))
    ∧ context_get c "auth0Token" = Samples.scoped_payload.
Proof.
  destruct (authMiddleware_publishes_payload Samples.env_on
              (λ _, inr Samples.scoped_payload) Samples.bearer_request
              Samples.scoped_payload eq_refl)
    as (t & c & Hrun & _ & Hget & _); [by vm_compute|reflexivity|].
  by exists t, c.
Defined.

Lemma includes_elem_of xs v :
  primitive v → includes xs v = true ↔ v ∈ xs.
Proof.
  intros Hv. unfold includes. rewrite existsb_exists. split.
  - intros (x & Hx & E). apply list_elem_of_In in Hx.
    destruct x, v; simpl in *; try done;
      apply bool_decide_eq_true in E; by subst.
  - intros Hin. exists v. split; [by apply list_elem_of_In|].
    by apply ApiAuthFacts.same_value_zero_eq.
Qed.

Lemma getAuth_scopes_of_strings env c s ps :
  get (user_of (context_get c "auth0Token")) "scope" = JStr s →
  get (user_of (context_get c "auth0Token")) "permissions" = JArr (JStr <$> ps) →
  ∀ t, JStr t ∈ scopes (getAuth env c)
       ↔ (t ∈ split s SPACE ∧ t ≠ []) ∨ t ∈ ps.
Proof.
  intros Hs Hp t. unfold getAuth. cbn [scopes]. rewrite Hs, Hp.
  match goal with |- context [new_Set ?xs] =>
    destruct (ApiAuthFacts.new_Set_spec xs) as [_ Hin] end.
  { apply Forall_app. split; apply Forall_fmap, Forall_true; done. }
  rewrite Hin, elem_of_app, !list_elem_of_fmap.
  setoid_rewrite list_elem_of_filter. naive_solver.
Qed.

(** X5. [requireScope] lets a request through exactly when the needed
    scope is among the principal's scopes, and otherwise answers with
    status 403 and the error "insufficient_scope, need: <scope>"; for a
    payload with a scope string and a list of permission strings the
    scope is held exactly when it is a non-empty space-delimited token of
    the scope string or one of the permissions. *)
Theorem requireScope_grants env needed c :
  (requireScope env needed c = None ↔ JStr needed ∈ scopes (getAuth env c))
  ∧ (∀ r, requireScope env needed c = Some r →
       status r = 403%Z
       ∧ get (body r) "error"
         = JStr (str "insufficient_scope, need: " ++ needed))
  ∧ (∀ s ps,
       get (user_of (context_get c "auth0Token")) "scope" = JStr s →
       get (user_of (context_get c "auth0Token")) "permissions"
         = JArr (JStr <$> ps) →
       requireScope env needed c = None
       ↔ (needed ∈ split s SPACE ∧ needed ≠ []) ∨ needed ∈ ps).
Proof.
  assert (requireScope env needed c = None
          ↔ JStr needed ∈ scopes (getAuth env c)) as Hiff.
  { unfold requireScope. rewrite <- (includes_elem_of _ (JStr needed)) by done.
    destruct (includes _ _); naive_solver. }
  split_and!; [done| |].
  - unfold requireScope. destruct (includes _ _); [done|].
    intros r [= <-]. split; [done|]. cbn. by rewrite lookup_singleton_eq.
  - intros s ps Hs Hp. rewrite Hiff. by apply getAuth_scopes_of_strings.
Qed.

Lemma requireScope_grants_witness :
  requireScope Samples.env_on (str "c")
    (Samples.verified Samples.scoped_payload) = None.
Proof.
  destruct (requireScope_grants Samples.env_on (str "c")
              (Samples.verified Samples.scoped_payload)) as (_ & _ & H).
  apply (H (str "a b a") [str "b"; str "c"] eq_refl eq_refl).
  right. apply list_elem_of_further, list_elem_of_here.
Defined.

(** X6. Without a verified payload every scope is refused; and a scope
    claim given as a string never grants a needed scope that is empty or
    contains a space, whatever the string is. *)
Theorem requireScope_refuses env needed c :
  (vars c !! "auth0Token" = None → requireScope env needed c ≠ None)
  ∧ (∀ s, get (user_of (context_get c "auth0Token")) "scope" = JStr s →
          isArray (get (user_of (context_get c "auth0Token")) "permissions")
            = false →
          needed = [] ∨ SPACE ∈ needed →
          requireScope env needed c ≠ None).
Proof.
  destruct (requireScope_grants env needed c) as (Hiff & _ & _). split.
  - intros Hnone. rewrite Hiff.
    assert (scopes (getAuth env c) = []) as ->; [|apply not_elem_of_nil].
    unfold getAuth, context_get. by rewrite Hnone.
  - intros s Hs Hperm Hbad. rewrite Hiff. unfold getAuth. cbn [scopes].
    rewrite Hs.
    assert (∀ ys, match get (user_of (context_get c "auth0Token")) "permissions"
                  with JArr xs => xs | _ => ys end = ys) as ->
      by (intros ys; by destruct (get _ "permissions")).
    rewrite app_nil_r.
    match goal with |- context [new_Set ?xs] =>
      destruct (ApiAuthFacts.new_Set_spec xs) as [_ Hin] end.
    { apply Forall_fmap, Forall_true. done. }
    rewrite Hin, list_elem_of_fmap. intros (t & [= <-] & Ht).
    apply list_elem_of_filter in Ht as [Hne Ht].
    destruct Hbad as [->|Hsp]; [done|].
    by apply (proj2 (ApiAuthFacts.split_spec s)) in Ht.
Qed.

Lemma requireScope_refuses_witness :
  requireScope Samples.env_on (str "tasks:read") Samples.bare_request ≠ None
  ∧ requireScope Samples.env_on (str "a b")
      (Samples.verified (JObj {[ "scope" := JStr (str "a b") ]})) ≠ None.
Proof.
  split.
  - by apply (requireScope_refuses Samples.env_on (str "tasks:read")
                Samples.bare_request).
  - apply (requireScope_refuses Samples.env_on (str "a b")
             (Samples.verified (JObj {[ "scope" := JStr (str "a b") ]}))
             ) with (s := str "a b"); [reflexivity|reflexivity|].
    right. apply list_elem_of_further, list_elem_of_here.
Defined.

(** X7. A token that wraps the payload in a [payload] property yields the
    same principal as the payload itself. *)
Theorem getAuth_unwraps_payload env c1 c2 wrapper payload :
  context_get c1 "auth0Token" = JObj wrapper →
  wrapper !! "payload" = Some (JObj payload) →
  context_get c2 "auth0Token" = JObj payload →
  truthy (get (JObj payload) "payload") = false →
  getAuth env c1 = getAuth env c2.
Proof.
  intros H1 Hw H2 Hp.
  assert (user_of (context_get c1 "auth0Token") = JObj payload) as E1.
  { rewrite H1. unfold user_of, opt_get, get. by rewrite Hw. }
  assert (user_of (context_get c2 "auth0Token") = JObj payload) as E2.
  { rewrite H2. unfold user_of. cbn [opt_get]. unfold js_or at 2.
    by rewrite Hp. }
  unfold getAuth. by rewrite E1, E2.
Qed.

Lemma getAuth_unwraps_payload_witness :
  getAuth Samples.env_on
    (Samples.verified (JObj {[ "payload" := Samples.scoped_payload ]}))
  = getAuth Samples.env_on (Samples.verified Samples.scoped_payload).
Proof.
  by eapply (getAuth_unwraps_payload Samples.env_on _ _
               {[ "payload" := Samples.scoped_payload ]}).
Defined.

(** X8. Whatever the context holds, the user id of the principal is a
    non-empty string, and the organization is either a non-empty string
    taken from the [org_id] claim or the configured default. *)
Theorem getAuth_identity_defined env c :
  (∃ s, userId (getAuth env c) = JStr s ∧ s ≠ [])
  ∧ ((∃ o, orgId (getAuth env c) = JStr o ∧ o ≠ []
           ∧ get (user_of (context_get c "auth0Token")) "org_id" = JStr o)
     ∨ orgId (getAuth env c) = API_DEFAULT_ORG env).
Proof.
  unfold getAuth. cbn [userId orgId].
  set (u := user_of (context_get c "auth0Token")). split.
  - destruct (get u "sub") as [| | | |s| | |] eqn:E; cbn;
      try (by eexists; split; [done|by vm_compute]).
    destruct (bool_decide (s = [])) eqn:Hs; cbn.
    + eexists; split; [done|by vm_compute].
    + exists s. split; [done|]. by apply bool_decide_eq_false in Hs.
  - destruct (get u "org_id") as [| | | |o| | |] eqn:E; cbn; try by right.
    unfold js_or. cbn. destruct (bool_decide (o = [])) eqn:Ho; cbn.
    + by right.
    + left. exists o. split_and!; [done| |done].
      by apply bool_decide_eq_false in Ho.
Qed.

(** X9. When the scope claim and the permissions claim are both arrays
    of primitive values, the scopes hold each member of either array
    once; when the scope claim is neither a string nor an array and the
    permissions claim is not an array, the scopes are empty. *)
Theorem getAuth_scopes_of_arrays env c :
  (∀ xs ys,
     get (user_of (context_get c "auth0Token")) "scope" = JArr xs →
     get (user_of (context_get c "auth0Token")) "permissions" = JArr ys →
     Forall primitive xs → Forall primitive ys →
     NoDup (scopes (getAuth env c))
     ∧ ∀ v, v ∈ scopes (getAuth env c) ↔ v ∈ xs ∨ v ∈ ys)
  ∧ (is_string (get (user_of (context_get c "auth0Token")) "scope") = false →
     isArray (get (user_of (context_get c "auth0Token")) "scope") = false →
     isArray (get (user_of (context_get c "auth0Token")) "permissions") = false →
     scopes (getAuth env c) = []).
Proof.
  split.
  - intros xs ys Hs Hp Hxs Hys. unfold getAuth. cbn [scopes]. rewrite Hs, Hp.
    destruct (ApiAuthFacts.new_Set_spec (xs ++ ys)) as [Hnd Hin];
      [by apply Forall_app|].
    split; [done|]. intros v. by rewrite Hin, elem_of_app.
  - intros H1 H2 H3. unfold getAuth. cbn [scopes].
    destruct (get _ "scope"); try done; by destruct (get _ "permissions").
Qed.

Lemma getAuth_scopes_of_arrays_witness :
  scopes (getAuth Samples.env_on
            (Samples.verified
               (JObj {[ "scope" := JArr [JStr (str "read"); JNum 7];
                        "permissions" := JArr [JNum 7; JStr (str "write")] ]})))
  = [JStr (str "read"); JNum 7; JStr (str "write")]
  ∧ scopes (getAuth Samples.env_on (Samples.verified (JObj {[ "scope" := JNum 3 ]})))
    = [].
Proof.
  split; [reflexivity|].
  by apply (getAuth_scopes_of_arrays Samples.env_on
              (Samples.verified (JObj {[ "scope" := JNum 3 ]}))).
Defined.

End ApiAuthMore.

(* ===================================================================== *)
(** * The verifier as it is installed *)
(* ===================================================================== *)

Module ApiIngressFacts.
Import Js Eff ApiAuth ApiScope ApiIngress.

Lemma trimStart_nil_iff s : trimStart s = [] ↔ blank s.
Proof.
  unfold blank. induction s as [|c s IH]; simpl; [by split|].
  destruct (is_white_space c) eqn:Hc.
  - rewrite IH, Forall_cons. tauto.
  - split; [done|]. intros [Hc' _]%Forall_cons. congruence.
Qed.

Lemma blank_rev s : blank (rev s) ↔ blank s.
Proof.
  unfold blank. split; intros H.
  - rewrite <- (rev_involutive s). by apply List.Forall_rev.
  - by apply List.Forall_rev.
Qed.

Lemma blank_trimStart s : blank (trimStart s) → blank s.
Proof.
  intros Hb. apply trimStart_nil_iff. rewrite <- AgentFacts.trimStart_idem.
  by apply trimStart_nil_iff.
Qed.

(** [trim] leaves nothing exactly of the strings made of white space. *)
Lemma trim_nil_iff s : trim s = [] ↔ blank s.
Proof.
  unfold trim, trimEnd. split.
  - intros E. apply (f_equal (@rev N)) in E. rewrite rev_involutive in E.
    cbn in E. apply blank_trimStart, blank_rev. by apply trimStart_nil_iff.
  - intros Hb. apply trimStart_nil_iff in Hb. by rewrite Hb.
Qed.

Lemma after_prefix_ci_Some lit s rest :
  after_prefix_ci lit s = Some rest →
  ∃ scheme, s = scheme ++ rest ∧ lower <$> scheme = lower <$> lit.
Proof.
  revert s. induction lit as [|a lit IH]; intros s; simpl.
  - intros [= ->]. by exists [].
  - destruct s as [|c s]; [done|].
    destruct (lower a =? lower c)%N eqn:E; [|done].
    apply N.eqb_eq in E. intros (scheme & -> & Hs)%IH.
    exists (c :: scheme). split; [done|]. cbn. by rewrite Hs, E.
Qed.

(** No white-space character is a letter, so a blank header does not
    start with the scheme and is left as it is. *)
Lemma white_is_no_letter c :
  is_white_space c = true → lower c = c ∧ c ≠ 98%N.
Proof.
  intros Hc. unfold lower, is_white_space in *.
  repeat (apply orb_prop in Hc as [Hc|Hc]);
    try (apply andb_prop in Hc as [?%N.leb_le ?%N.leb_le]);
    try apply N.eqb_eq in Hc;
    (split; [|lia]);
    (destruct ((65 <=? c) && (c <=? 90))%N eqn:Hup; [|done]);
    apply andb_prop in Hup as [?%N.leb_le ?%N.leb_le]; lia.
Qed.

Lemma strip_bearer_blank authHeader :
  blank authHeader → strip_bearer authHeader = authHeader.
Proof.
  destruct authHeader as [|c s]; [done|]. intros [Hc _]%Forall_cons.
  apply white_is_no_letter in Hc as [Hl Hne].
  unfold strip_bearer. change (str "Bearer") with (66%N :: str "earer").
  cbn [after_prefix_ci]. rewrite Hl. change (lower 66) with 98%N.
  by rewrite (proj2 (N.eqb_neq 98 c)).
Qed.

(** The test [!accessToken] of the middleware in terms of the header. *)
Lemma no_token_iff authorization :
  trim (strip_bearer (default [] authorization)) = []
  ↔ carries_no_token authorization.
Proof.
  unfold carries_no_token. set (h := default [] authorization). split.
  - unfold strip_bearer.
    destruct (after_prefix_ci (str "Bearer") h) as [[|c rest]|] eqn:Hp;
      try (intros ?%trim_nil_iff; by left).
    destruct (is_white_space c) eqn:Hc; [|intros ?%trim_nil_iff; by left].
    intros Hrest%trim_nil_iff%blank_trimStart.
    apply after_prefix_ci_Some in Hp as (scheme & -> & Hs).
    right. exists scheme, (c :: rest). split_and!; [done|done|done|].
    by apply Forall_cons.
  - intros [Hb|(scheme & ws & -> & Hs & Hne & Hb)].
    + rewrite strip_bearer_blank by done. by apply trim_nil_iff.
    + unfold strip_bearer.
      rewrite ApiAuthMore.after_prefix_ci_app by (rewrite Hs; by vm_compute).
      destruct ws as [|c ws]; [done|].
      apply Forall_cons in Hb as [Hc Hb]. rewrite Hc.
      apply trimStart_nil_iff in Hb. by rewrite Hb.
Qed.

(** C4, amended. [applyAuth] registers the verifier, for every path, only
    when authentication is enabled. The verifier as registered answers a
    request whose header carries no token (it is absent or blank, or is
    the word "Bearer" followed by white space only) before any
    verification, with status 401, the error
    "Unauthorized: Missing access token" and a WWW-Authenticate challenge
    naming the audience; for every other request it submits what the
    header holds as the token, and when the verifier rejects it, answers
    with status 401, the error "Unauthorized: Invalid access token" and
    the same challenge. In neither case is the rest of the chain
    invoked. *)
Theorem authMiddleware_denies env verify path verifier context :
  (path, verifier) ∈ registered (applyAuth env verify) →
  let accessToken := trim (strip_bearer (default [] (authorization context))) in
  AUTH_ENABLED env = true ∧ path = "/*"
  ∧ (accessToken = [] ↔ carries_no_token (authorization context))
  ∧ (carries_no_token (authorization context) →
     ∃ t, verifier context []
          = (t, inr (Respond (unauthorized env
                                "Unauthorized: Missing access token")))
          ∧ ¬ invoked_next t ∧ ¬ attempted_verification t)
  ∧ (¬ carries_no_token (authorization context) →
     ∀ error, verify accessToken = inl error →
     ∃ t, verifier context []
          = (t, inr (Respond (unauthorized env
                                "Unauthorized: Invalid access token")))
          ∧ ¬ invoked_next t ∧ verifications t = [accessToken])
  ∧ (∀ message,
       status (unauthorized env message) = 401%Z
       ∧ get (body (unauthorized env message)) "error" = JStr (str message)
       ∧ headers (unauthorized env message) !! "WWW-Authenticate"
         = Some (str "Bearer resource=" ++ [QUOTE]
                 ++ API_AUTH0_AUDIENCE env ++ [QUOTE])).
Proof.
  intros Hin accessToken.
  assert (AUTH_ENABLED env = true ∧ path = "/*"
          ∧ verifier = authMiddleware env verify) as (Henabled & -> & ->).
  { unfold applyAuth in Hin.
    destruct (AUTH_ENABLED env); cbn [registered] in Hin.
    - apply list_elem_of_singleton in Hin. by injection Hin as -> ->.
    - by apply elem_of_nil in Hin. }
  pose proof (ApiAuthMore.authMiddleware_cases env verify context) as Hrun.
  cbn zeta in Hrun. fold accessToken in Hrun. rewrite Henabled in Hrun.
  cbn [negb] in Hrun.
  split_and!; [done|done|apply no_token_iff| | |apply ApiAuthFacts.unauthorized_shape].
  - intros Hmissing%no_token_iff. fold accessToken in Hmissing.
    rewrite bool_decide_eq_true_2 in Hrun by done.
    eexists. split_and!; [exact Hrun| |].
    + intros [c Hc]. apply list_elem_of_singleton in Hc. discriminate.
    + intros [a Ha]. apply list_elem_of_singleton in Ha. discriminate.
  - intros Hpresent error Hrejected.
    assert (accessToken ≠ []) as Hne by (by intros ?%no_token_iff).
    rewrite bool_decide_eq_false_2, Hrejected in Hrun by done.
    eexists. split_and!; [exact Hrun| |done].
    intros [c Hc]. rewrite !elem_of_cons, elem_of_nil in Hc. naive_solver.
Qed.

Lemma authMiddleware_denies_witness :
  (∃ t, authMiddleware Samples.env_on Samples.reject_all
          Samples.bare_request []
        = (t, inr (Respond (unauthorized Samples.env_on
                              "Unauthorized: Missing access token")))
        ∧ ¬ attempted_verification t)
  ∧ (∃ t, authMiddleware Samples.env_on Samples.reject_all
            Samples.bare_scheme_request []
          = (t, inr (Respond (unauthorized Samples.env_on
                                "Unauthorized: Invalid access token")))
          ∧ verifications t = [str "Bearer"]).
Proof.
  assert (("/*", authMiddleware Samples.env_on Samples.reject_all)
          ∈ registered (applyAuth Samples.env_on Samples.reject_all)) as Hin
    by apply list_elem_of_here.
  split.
  - destruct (authMiddleware_denies Samples.env_on Samples.reject_all "/*"
                (authMiddleware Samples.env_on Samples.reject_all)
                Samples.bare_request Hin) as (_ & _ & _ & H & _).
    destruct H as (t & Ht & _ & Hnv); [left; constructor|]. by exists t.
  - destruct (authMiddleware_denies Samples.env_on Samples.reject_all "/*"
                (authMiddleware Samples.env_on Samples.reject_all)
                Samples.bare_scheme_request Hin) as (_ & _ & Hiff & _ & H & _).
    destruct (H (λ Hno, ltac:(by apply Hiff in Hno))
                (JStr (str "invalid signature")) eq_refl) as (t & Ht & _ & Hv).
    by exists t.
Defined.

End ApiIngressFacts.

(* ===================================================================== *)
(** * More on the response text normalizer *)
(* ===================================================================== *)

Module AgentMore.
Import Js Agent AgentSpec.

Lemma take_repeat_unit u k : 1 ≤ k → take (length u) (repeat u k) = u.
Proof.
  destruct k as [|k]; [lia|]. intros _. cbn [repeat].
  by rewrite take_app_length.
Qed.

Lemma repeat_tiles u k : 1 ≤ k → tiles_exactly (take (length u) (repeat u k)) (repeat u k).
Proof.
  intros Hk i Hi. rewrite take_repeat_unit by done.
  rewrite AgentFacts.length_repeat in Hi. by apply AgentFacts.lookup_repeat.
Qed.

(** X10. The result of the normalizer carries no surrounding white
    space, and it is either the trimmed input itself or at most half as
    long as the trimmed input. *)
Theorem extractResponseText_halves_or_keeps content :
  trim (extractResponseText content) = extractResponseText content
  ∧ (extractResponseText content = trim content
     ∨ length (extractResponseText content) ≤ length (trim content) / 2)
  ∧ length (extractResponseText content) ≤ length content.
Proof.
  pose proof (AgentFacts.length_trim content) as Hlen.
  assert (length (trim content) / 2 ≤ length (trim content)) as Hhalf
    by (apply Nat.Div0.div_le_upper_bound; lia).
  destruct (AgentFacts.extractResponseText_normalized content)
    as [len Hb _ _|_ _|_ _].
  - split_and!; [apply AgentFacts.trim_idem| |].
    + right. etrans; [apply AgentFacts.length_trim|].
      rewrite length_take. lia.
    + etrans; [apply AgentFacts.length_trim|]. rewrite length_take. lia.
  - split_and!; [apply AgentFacts.trim_idem| |].
    + right. etrans; [apply AgentFacts.length_trim|].
      rewrite length_take. lia.
    + etrans; [apply AgentFacts.length_trim|]. rewrite length_take. lia.
  - split_and!; [apply AgentFacts.trim_idem|by left|done].
Qed.

(** X11. A text made of two or more copies of a unit, with no
    surrounding white space, is collapsed to the trimmed form of a prefix
    that tiles the text and is no longer than the unit; when no shorter
    prefix tiles the text, the result is the trimmed unit itself. *)
Theorem extractResponseText_collapses_repetition u k :
  u ≠ [] → 2 ≤ k → trim (repeat u k) = repeat u k →
  (∃ p, 1 ≤ p ≤ length u
        ∧ tiles_exactly (take p (repeat u k)) (repeat u k)
        ∧ extractResponseText (repeat u k) = trim (take p (repeat u k)))
  ∧ ((∀ j, 1 ≤ j < length u →
           ¬ tiles_exactly (take j (repeat u k)) (repeat u k)) →
     extractResponseText (repeat u k) = trim u).
Proof.
  intros Hu Hk Htrim.
  assert (1 ≤ length u) as Hlu by (destruct u; [done|simpl; lia]).
  assert (1 ≤ length u ≤ length (repeat u k) / 2) as Hcand.
  { split; [done|]. rewrite AgentFacts.length_repeat.
    apply Nat.div_le_lower_bound; nia. }
  pose proof (repeat_tiles u k ltac:(lia)) as Htiles.
  pose proof (AgentFacts.extractResponseText_normalized (repeat u k)) as Hn.
  rewrite Htrim in Hn.
  destruct Hn as [len Hb Hlen Hmin|Hno _|Hno _];
    [|by destruct (Hno _ Hcand)..].
  assert (len ≤ length u) as Hle.
  { destruct (decide (len ≤ length u)); [done|].
    destruct (Hmin (length u)); [lia|done]. }
  split.
  - exists len. split_and!; [lia|lia|done|done].
  - intros Hprim. destruct (decide (len = length u)) as [->|Hne].
    + by rewrite take_repeat_unit by lia.
    + destruct (Hprim len); [lia|done].
Qed.

Lemma extractResponseText_collapses_repetition_witness :
  ∃ p, 1 ≤ p ≤ 2
    ∧ extractResponseText (repeat (str "ab") 3)
      = trim (take p (repeat (str "ab") 3)).
Proof.
  destruct (extractResponseText_collapses_repetition (str "ab") 3)
    as [(p & Hp & _ & E) _]; [done|lia|reflexivity|].
  by exists p.
Defined.

End AgentMore.

(* ===================================================================== *)
(** * More on the bridge *)
(* ===================================================================== *)

Module McpClientMore.
Import Js Eff McpClient BridgeObs.
Import McpClientFacts.

(** X12. [createMCPClient] either returns the discovered tools with both
    handles open and nothing closed, or re-throws the error of the first
    step that failed (a proper error, whose message it logs) after
    closing, client first, exactly the handles it had created, whether
    or not those closes succeed; the transport is given a credential
    provider exactly when the access token is truthy. *)
Theorem createMCPClient_closes_what_it_opened accessToken remote :
  (∀ error, first_failure remote = Some error → nullish error = false) →
  ∃ w outcome,
    createMCPClient accessToken remote initial = (w, outcome)
    ∧ trace w !! 1 = Some (NewTransport (truthy accessToken))
    ∧ match first_failure remote with
      | None =>
          (∃ r, listTools remote = inr r
                ∧ outcome = inr (js_or (get r "tools") (JArr [])))
          ∧ client w = true ∧ transport w = true ∧ closes (trace w) = []
      | Some error =>
          outcome = inl error
          ∧ closes (trace w)
            = (if client w then [ClientClose] else [])
              ++ (if transport w then [TransportClose] else [])
          ∧ transport w = resolved (new_transport remote)
          ∧ client w = resolved (new_transport remote)
                       && resolved (new_client remote)
      end.
Proof.
  intros Hproper. unfold first_failure in *. run_bridge.
  destruct (new_transport remote) as [e1|[]]; cbn.
  { rewrite message_of_proper by (by apply Hproper). cbn.
    eexists _, _. split; [reflexivity|]. by split_and!. }
  destruct (new_client remote) as [e2|[]]; cbn.
  { rewrite message_of_proper by (by apply Hproper). cbn.
    destruct (transport_close remote) as [?|[]]; cbn;
      (eexists _, _; split; [reflexivity|]; by split_and!). }
  destruct (connect remote) as [e3|[]]; cbn.
  { rewrite message_of_proper by (by apply Hproper). cbn.
    destruct (client_close remote) as [?|[]], (transport_close remote) as [?|[]];
      cbn; (eexists _, _; split; [reflexivity|]; by split_and!). }
  destruct (listTools remote) as [e4|r]; cbn.
  { rewrite message_of_proper by (by apply Hproper). cbn.
    destruct (client_close remote) as [?|[]], (transport_close remote) as [?|[]];
      cbn; (eexists _, _; split; [reflexivity|]; by split_and!). }
  destruct r; cbn;
    try (eexists _, _; split; [reflexivity|]; split_and!; [done|by eauto|done..]).
  all: destruct (client_close remote) as [?|[]],
         (transport_close remote) as [?|[]];
    cbn; (eexists _, _; split; [reflexivity|]; by split_and!).
Qed.

Lemma createMCPClient_closes_what_it_opened_witness :
  ∃ w, createMCPClient BridgeSamples.token BridgeSamples.client_close_fails
         initial = (w, inl (JStr (str "ECONNREFUSED")))
    ∧ closes (trace w) = [ClientClose; TransportClose].
Proof.
  destruct (createMCPClient_closes_what_it_opened BridgeSamples.token
              BridgeSamples.client_close_fails)
    as (w & outcome & E & _ & H); [by intros error [= <-]|].
  cbn in H. destruct H as (-> & Hcloses & Ht & Hc).
  exists w. split; [done|]. by rewrite Hcloses, Ht, Hc.
Defined.

(** X13. When the closes fail only with proper errors, [cleanup] never
    throws and leaves the recorded metadata alone;
    with both handles open it always attempts [client.close()] first, and
    when that succeeds it attempts [transport.close()] next, logging a
    failure of the latter once. *)
Theorem cleanup_order remote w :
  fails_properly (client_close remote) →
  fails_properly (transport_close remote) →
  ∃ w', cleanup remote w = (w', inr tt)
    ∧ exchangedScopes w' = exchangedScopes w
    ∧ tokenExchangeTime w' = tokenExchangeTime w
    ∧ (client w = true → transport w = true →
       (∃ rest, trace w' = trace w ++ ClientClose :: rest)
       ∧ (client_close remote = inr tt →
          trace w' = trace w ++ [ClientClose; TransportClose]
                     ++ match transport_close remote with
                        | inl _ => [LogError "Cleanup error:"]
                        | inr _ => []
                        end)).
Proof.
  intros Hclient Htransport. run_bridge.
  destruct (client w), (client_close remote) as [?|[]], (transport w),
    (transport_close remote) as [?|[]]; cbn in *;
    rewrite ?message_of_proper by done; cbn;
    (eexists; split_and!; [done..|]); intros; try done;
    (split; [rewrite <- ?app_assoc; by eexists|]);
    intros; simplify_eq; by rewrite <- ?app_assoc.
Qed.

Lemma cleanup_order_witness :
  ∃ w', cleanup BridgeSamples.client_close_fails BridgeSamples.connected
        = (w', inr tt)
    ∧ ∃ rest, trace w' = ClientClose :: rest.
Proof.
  destruct (cleanup_order BridgeSamples.client_close_fails
              BridgeSamples.connected) as (w' & E & _ & _ & H); [done..|].
  exists w'. split; [done|]. by destruct (H eq_refl eq_refl) as [? _].
Defined.

Section Calls.
Variable accessToken : value.
Variable clock : nat → Z.
Variable JSON_parse : value → option value.

Local Abbreviation callTool := (callTool accessToken clock JSON_parse).
Local Abbreviation step := (step accessToken clock JSON_parse).
Local Abbreviation run := (run accessToken clock JSON_parse).

(** X14. One [callTool] makes exactly one remote call, with the name and
    arguments it was given, and hands back exactly what that call
    produced: the result when it resolved, the same error when it was
    rejected with a proper error. It logs the start and then the
    completion or the failure, and it never touches the handles. *)
Theorem callTool_transparent name args reply w :
  fails_properly reply →
  ∃ w', callTool name args reply w = (w', reply)
    ∧ trace w' = trace w
                 ++ [LogInfo "Calling MCP tool:"; ClientCallTool name args;
                     match reply with
                     | inl _ => LogError "MCP tool failed:"
                     | inr _ => LogInfo "MCP tool completed:"
                     end]
    ∧ remote_calls (trace w') = remote_calls (trace w) ++ [(name, args)]
    ∧ client w' = client w ∧ transport w' = transport w.
Proof.
  assert (∀ t : list event, ∀ e3,
            remote_calls e3 = [] →
            remote_calls (t ++ LogInfo "Calling MCP tool:"
                            :: ClientCallTool name args :: e3)
            = remote_calls t ++ [(name, args)]) as Hcalls.
  { intros t e3 He. unfold remote_calls in *. rewrite omap_app. cbn.
    by rewrite He. }
  intros Hproper. run_bridge.
  destruct reply as [error|result];
    destruct (truthy accessToken) eqn:Ha;
    destruct (tokenExchangeTime w) as [t|] eqn:Ht;
    destruct (truthy (exchangedScopes w)) eqn:Hes; cbn in *;
    rewrite ?message_of_proper by done; cbn.
  all: repeat (case_bool_decide; simplify_eq/=).
  all: repeat (case_match; simplify_eq/=;
               try rewrite Hes in *; try rewrite Ht in *; simplify_eq/=).
  all: eexists; split_and!; [done| |by rewrite <- !app_assoc; apply Hcalls
                             |done|done];
    by rewrite <- !app_assoc.
Qed.

Hypothesis clock_monotone : ∀ n, (clock n ≤ clock (S n))%Z.

Lemma step_latency_invariant w c :
  (∀ t, tokenExchangeTime w = Some t → (0 ≤ t)%Z ∧ truthy accessToken = true) →
  ∀ t, tokenExchangeTime (step w c) = Some t →
       (0 ≤ t)%Z ∧ truthy accessToken = true.
Proof.
  intros Hw t. rewrite step_tokenExchangeTime.
  destruct (reply c); [by apply Hw|].
  destruct (truthy accessToken) eqn:Ha; cbn; [|by apply Hw].
  case_bool_decide; [|by apply Hw].
  destruct (_ =? 0)%Z; [done|]. intros [= <-].
  pose proof (clock_monotone (S (ticks w))). split; [lia|done].
Qed.

(** X15. With a clock that never runs backwards, a latency recorded on a
    bridge is never negative, and one is recorded only on a bridge that
    holds a truthy credential and has had a call resolve. *)
Theorem tokenExchangeTime_sound cs t :
  tokenExchangeTime (run cs initial) = Some t →
  (0 ≤ t)%Z ∧ truthy accessToken = true
  ∧ ∃ c result, c ∈ cs ∧ reply c = inr result.
Proof.
  revert t. induction cs as [|c cs IH] using rev_ind; intros t; [done|].
  rewrite run_app. change (run [c] ?w) with (step w c). intros Ht.
  assert (∀ t, tokenExchangeTime (run cs initial) = Some t →
               (0 ≤ t)%Z ∧ truthy accessToken = true) as Hinv
    by (intros t' Ht'; by destruct (IH t' Ht') as (? & ? & _)).
  destruct (step_latency_invariant _ c Hinv t Ht) as [? ?].
  split_and!; [done..|].
  destruct (tokenExchangeTime (run cs initial)) as [t'|] eqn:Hprev.
  - destruct (IH t' eq_refl) as (_ & _ & c' & r & Hc' & Hr).
    exists c', r. split; [|done]. apply elem_of_app. by left.
  - rewrite step_tokenExchangeTime in Ht.
    destruct (reply c) as [|result] eqn:Hr; [congruence|].
    exists c, result. split; [|done]. apply elem_of_app. right.
    by apply list_elem_of_singleton.
Qed.

(** X16. On a bridge that starts from the initial state the recorded
    scopes are either [null] or truthy, so testing them for truthiness,
    as the chat handler does, tells exactly whether any were recorded. *)
Theorem exchangedScopes_null_or_truthy cs :
  exchangedScopes (run cs initial) = JNull
  ∨ truthy (exchangedScopes (run cs initial)) = true.
Proof.
  induction cs as [|c cs IH] using rev_ind; [by left|].
  rewrite run_app. change (run [c] ?w) with (step w c).
  rewrite step_exchangedScopes.
  destruct IH as [Hnull|Htruthy].
  - rewrite Hnull. cbn [truthy].
    destruct (disclosure JSON_parse (reply c)) as [v|] eqn:Hd; cbn [default].
    + right. by eapply disclosure_truthy.
    + by left.
  - rewrite Htruthy. by right.
Qed.
End Calls.

Lemma callTool_transparent_witness :
  ∃ w', callTool BridgeSamples.token BridgeSamples.clock BridgeSamples.parse
          (JStr (str "tv_get_task")) (JObj ∅)
          (inl (JStr (str "fetch failed"))) initial
        = (w', inl (JStr (str "fetch failed"))).
Proof.
  destruct (callTool_transparent BridgeSamples.token BridgeSamples.clock
              BridgeSamples.parse (JStr (str "tv_get_task")) (JObj ∅)
              (inl (JStr (str "fetch failed"))) initial) as (w' & E & _);
    [done|].
  by exists w'.
Defined.

Lemma tokenExchangeTime_sound_witness :
  (0 ≤ 5)%Z ∧ truthy BridgeSamples.token = true
  ∧ ∃ c result, c ∈ [BridgeSamples.rejected; BridgeSamples.plain]
                ∧ reply c = inr result.
Proof.
  apply (tokenExchangeTime_sound BridgeSamples.token BridgeSamples.clock
           BridgeSamples.parse).
  - intros n. unfold BridgeSamples.clock. lia.
  - by vm_compute.
Defined.

End McpClientMore.

(* ===================================================================== *)
(** * More on the tool server *)
(* ===================================================================== *)

Module McpToolsFacts.
Import Js Eff McpServer McpTools.

Section Handlers.
Variable api : jsstring → value → value + value.
Variable JSON_stringify : value → value.
Variable enc : value → jsstring.
Variable qs : value → jsstring.
Variable String_of : value → jsstring.

Local Abbreviation registry := (registry api JSON_stringify enc qs String_of).

Ltac forward :=
  match goal with
  | |- context [McpServer.callApi _ ?p ?o] =>
      exists p, o;
      unfold McpServer.callApi, log_tool, emit, modify, mbind, M_bind, bind,
        mret, M_ret, ret, throw;
      cbn [fst snd];
      destruct (api p o); cbn [fst snd api_calls omap list_omap app]
  end.

(** X17. Whichever registered tool is dispatched, its handler forwards
    exactly one call to the resource API, carrying the session made from
    the caller's auth info, and the outcome of dispatch is that call's: a
    failure is passed to the caller as it is, a result comes back in the
    one-text-block envelope. A tool marked read-only sends neither a
    method nor a body; every other tool names POST, PATCH or DELETE. *)
Theorem dispatch_forwards_once (tool : Tool) args extra :
  tool ∈ registry →
  ∃ path options,
    api_calls (fst (handler tool args extra [])) = [(path, options)]
    ∧ get options "session" = createSession extra
    ∧ snd (handler tool args extra [])
      = match api path options with
        | inl error => inl error
        | inr result => inr (formatResult JSON_stringify result)
        end
    ∧ (if readOnlyHint tool
       then get options "method" = JUndefined
            ∧ get options "body" = JUndefined
       else get options "method" = JStr (str "POST")
            ∨ get options "method" = JStr (str "PATCH")
            ∨ get options "method" = JStr (str "DELETE")).
Proof.
  intros Hin. unfold McpTools.registry in Hin.
  repeat (apply elem_of_cons in Hin as [->|Hin]);
    [..|by apply elem_of_nil in Hin];
    cbn [handler readOnlyHint];
    unfold tv_create_project, tv_list_projects, tv_create_task, tv_get_task,
      tv_list_tasks, tv_update_task_status, tv_assign_task, tv_comment_task,
      tv_tag_task, tv_due_soon, tv_delete_project, tv_delete_task;
    forward; split_and!; try reflexivity; auto.
Qed.

(** The names under which the tools are registered are distinct. *)
Lemma registry_names_distinct : NoDup (name <$> registry).
Proof. apply (@bool_decide_unpack _ (NoDup_dec _)). by vm_compute. Qed.
End Handlers.

Lemma dispatch_forwards_once_witness :
  ∃ path options,
    api_calls (fst (handler ToolSamples.get_task
                      {[ "taskId" := JStr (str "t1") ]}
                      ToolSamples.extra_with_subject []))
    = [(path, options)]
    ∧ get options "session" = createSession ToolSamples.extra_with_subject.
Proof.
  destruct (dispatch_forwards_once Samples.api_ok Samples.stringify_stub
              ToolSamples.enc ToolSamples.qs ToolSamples.String_of
              ToolSamples.get_task {[ "taskId" := JStr (str "t1") ]}
              ToolSamples.extra_with_subject)
    as (path & options & Hcalls & Hsession & _).
  - do 3 apply list_elem_of_further. apply list_elem_of_here.
  - by exists path, options.
Defined.

(** X18. The body [tv_create_task] forwards never has a [name] field and
    always has a [title] and an [ownerId] field; a truthy [title] wins
    over the alias, a truthy [ownerId] wins over the session, a truthy
    subject of the session is used when no [ownerId] is given, and every
    other argument is forwarded as it came. *)
Theorem taskData_fields args session :
  taskData args session !! "name" = None
  ∧ is_Some (taskData args session !! "title")
  ∧ is_Some (taskData args session !! "ownerId")
  ∧ (∀ v, args !! "title" = Some v → truthy v = true →
          taskData args session !! "title" = Some v)
  ∧ (∀ v, args !! "ownerId" = Some v → truthy v = true →
          taskData args session !! "ownerId" = Some v)
  ∧ (args !! "ownerId" = None →
     truthy (opt_get (opt_get session "extra") "sub") = true →
     taskData args session !! "ownerId"
     = Some (opt_get (opt_get session "extra") "sub"))
  ∧ (∀ k, k ≠ "title" → k ≠ "ownerId" → k ≠ "name" →
          taskData args session !! k = args !! k).
Proof.
  assert (∀ a b, truthy a = true → js_or a b = a) as Hor
    by (intros a b Ha; unfold js_or; by rewrite Ha).
  assert (∀ k v, args !! k = Some v → get (JObj args) k = v) as Hget
    by (intros k v Hk; unfold get; by rewrite Hk).
  unfold taskData. split_and!.
  - apply lookup_delete_eq.
  - rewrite lookup_delete_ne, lookup_insert_ne, lookup_insert_eq by done.
    by eexists.
  - rewrite lookup_delete_ne, lookup_insert_eq by done. by eexists.
  - intros v Hv Ht.
    rewrite lookup_delete_ne, lookup_insert_ne, lookup_insert_eq by done.
    by rewrite (Hget _ _ Hv), Hor.
  - intros v Hv Ht. rewrite lookup_delete_ne, lookup_insert_eq by done.
    rewrite (Hget _ _ Hv). by do 2 rewrite (Hor v) by done.
  - intros Hnone Hsub. rewrite lookup_delete_ne, lookup_insert_eq by done.
    assert (get (JObj args) "ownerId" = JUndefined) as ->
      by (unfold get; by rewrite Hnone).
    rewrite (McpServerFacts.js_or_falsy JUndefined) by done. by rewrite Hor.
  - intros k ? ? ?. by rewrite lookup_delete_ne, !lookup_insert_ne.
Qed.

Lemma taskData_fields_witness :
  taskData {[ "title" := JStr (str "T"); "name" := JStr (str "N") ]}
    (createSession ToolSamples.extra_with_subject) !! "title"
  = Some (JStr (str "T"))
  ∧ taskData {[ "title" := JStr (str "T"); "name" := JStr (str "N") ]}
      (createSession ToolSamples.extra_with_subject) !! "ownerId"
    = Some (JStr (str "auth0|u1")).
Proof.
  destruct (taskData_fields
              {[ "title" := JStr (str "T"); "name" := JStr (str "N") ]}
              (createSession ToolSamples.extra_with_subject))
    as (_ & _ & _ & Htitle & _ & Howner & _).
  split; [by apply Htitle|]. by rewrite Howner.
Defined.

(** X19. [createSession] returns [null] exactly when the caller has no
    truthy auth info; otherwise the session has the four fields [token],
    [extra], [scopes] and [clientId], its [extra] and [scopes] are never
    missing, and the token is the caller's. *)
Theorem createSession_shape extra :
  (createSession extra = JNull ↔ truthy (opt_get extra "authInfo") = false)
  ∧ (truthy (opt_get extra "authInfo") = true →
     ∃ fields, createSession extra = JObj fields
       ∧ dom fields = {[ "token"; "extra"; "scopes"; "clientId" ]}
       ∧ get (JObj fields) "token" = get (opt_get extra "authInfo") "token"
       ∧ truthy (get (JObj fields) "extra") = true
       ∧ truthy (get (JObj fields) "scopes") = true).
Proof.
  unfold createSession. destruct (truthy (opt_get extra "authInfo")) eqn:E.
  - split; [done|]. intros _. eexists. split; [done|].
    split_and!.
    + rewrite !dom_insert_L, dom_singleton_L. set_solver.
    + done.
    + unfold get at 1. cbn. unfold js_or.
      by destruct (truthy (get _ "extra")) eqn:He.
    + unfold get at 1. cbn. unfold js_or.
      by destruct (truthy (get _ "scopes")) eqn:Hs.
  - done.
Qed.

Lemma createSession_shape_witness :
  ∃ fields, createSession ToolSamples.extra_with_subject = JObj fields
    ∧ get (JObj fields) "token" = JStr (str "tok")
    ∧ truthy (get (JObj fields) "scopes") = true.
Proof.
  destruct (createSession_shape ToolSamples.extra_with_subject) as [_ H].
  destruct (H eq_refl) as (fields & E & _ & Htok & _ & Hsc).
  exists fields. by split_and!.
Defined.

End McpToolsFacts.

(* ===================================================================== *)
(** * Facts about the agent's configuration *)
(* ===================================================================== *)

Module AgentEnvFacts.
Import Js AgentEnv.

Lemma str_provided env k :
  nonempty (str (env !! k) []) = true ↔ provided env k.
Proof.
  unfold nonempty, str, provided. destruct (env !! k) as [s|]; cbn [default].
  - destruct (decide (trim s = [])) as [E|E].
    + rewrite (bool_decide_eq_true_2 (trim s = [])) by done.
      rewrite bool_decide_eq_true_2 by done. cbn.
      split; [done|]. by intros (s' & [= <-] & ?).
    + rewrite (bool_decide_eq_false_2 (trim s = [])) by done.
      rewrite bool_decide_eq_false_2 by done. split; [|done].
      intros _. by exists s.
  - assert (trim [] = []) as -> by done.
    rewrite !bool_decide_eq_true_2 by done. cbn.
    split; [done|]. by intros (s & ? & _).
Qed.

Lemma str_fallback_nonempty v fallback :
  fallback ≠ [] → nonempty (str v fallback) = true.
Proof.
  intros Hf. unfold nonempty, str. cbn zeta.
  destruct (decide (trim (default [] v) = [])) as [E|E].
  - rewrite (bool_decide_eq_true_2 (trim _ = [])) by done.
    by rewrite bool_decide_eq_false_2.
  - rewrite (bool_decide_eq_false_2 (trim _ = [])) by done.
    by rewrite bool_decide_eq_false_2.
Qed.

(** X20. Authentication is enabled exactly when AUTH0_DOMAIN,
    AGENT_AUTH0_CLIENT_ID, AGENT_AUTH0_CLIENT_SECRET and
    AGENT_SESSION_SECRET are all set to something other than white space;
    AGENT_BASE_URL never decides it, because its default is not empty. *)
Theorem AUTH_ENABLED_iff env agent_port mcp_port :
  AUTH_ENABLED (load env agent_port mcp_port) = true
  ↔ provided env "AUTH0_DOMAIN"
    ∧ provided env "AGENT_AUTH0_CLIENT_ID"
    ∧ provided env "AGENT_AUTH0_CLIENT_SECRET"
    ∧ provided env "AGENT_SESSION_SECRET".
Proof.
  unfold load. cbn [AUTH_ENABLED].
  rewrite (str_fallback_nonempty (env !! "AGENT_BASE_URL")) by done.
  rewrite !andb_true_iff, !str_provided. tauto.
Qed.



End AgentEnvFacts.

(* ===================================================================== *)
(** * Facts about the agent's view of the user *)
(* ===================================================================== *)

Module AgentUserFacts.
Import Js AgentUser.

Lemma starts_with_spec pat s :
  starts_with pat s = true ↔ ∃ post, s = pat ++ post.
Proof.
  revert s. induction pat as [|a pat IH]; intros s; simpl.
  - split; [by exists s|done].
  - destruct s as [|c s]; [split; [done|by intros [? ?]]|].
    rewrite andb_true_iff, N.eqb_eq, IH. split.
    + intros [-> [post ->]]. by exists post.
    + intros [post [= -> ->]]. split; [done|by exists post].
Qed.

Lemma includes_spec s pat : includes s pat = true ↔ occurs pat s.
Proof.
  unfold occurs. induction s as [|c s IH]; simpl.
  - rewrite orb_false_r, starts_with_spec. split.
    + intros [post ->]. by exists [], post.
    + intros (pre & post & E). destruct pre; [by exists post|done].
  - rewrite orb_true_iff, starts_with_spec, IH. split.
    + intros [[post ->]|(pre & post & ->)]; [by exists [], post|].
      by exists (c :: pre), post.
    + intros ([|c' pre] & post & E); [left; by exists post|].
      right. injection E as -> ->. by exists pre, post.
Qed.

Lemma includes_false s pat : includes s pat = false ↔ ¬ occurs pat s.
Proof. rewrite <- includes_spec. by destruct (includes s pat). Qed.

(** X22. The user type is "Analyst @ PledgeRocket" exactly for an email
    in which "@pledgerocket.com" or "@okta.com" occurs, "Guest" exactly
    for a missing or empty email, and "B2B Customer" for every other
    email. *)
Theorem getUserType_classes email :
  (getUserType email = str "Analyst @ PledgeRocket"
   ↔ ∃ e, email = Some e ∧ (occurs PLEDGEROCKET e ∨ occurs OKTA e))
  ∧ (getUserType email = str "Guest" ↔ email = None ∨ email = Some [])
  ∧ (getUserType email = str "B2B Customer"
     ↔ ∃ e, email = Some e ∧ e ≠ []
            ∧ ¬ occurs PLEDGEROCKET e ∧ ¬ occurs OKTA e).
Proof.
  unfold getUserType, internal. destruct email as [e|].
  - destruct (includes e PLEDGEROCKET) eqn:Hp; cbn [orb];
      [|destruct (includes e OKTA) eqn:Ho].
    + apply includes_spec in Hp. split_and!.
      * split; [|done]. intros _. exists e. by split; [|left].
      * split; [by vm_compute|]. intros [?|[= ->]]; [done|].
        by apply includes_spec in Hp.
      * split; [by vm_compute|]. by intros (? & [= <-] & _ & ? & _).
    + apply includes_spec in Ho. split_and!.
      * split; [|done]. intros _. exists e. by split; [|right].
      * split; [by vm_compute|]. intros [?|[= ->]]; [done|].
        by apply includes_spec in Ho.
      * split; [by vm_compute|]. by intros (? & [= <-] & _ & _ & ?).
    + apply includes_false in Hp, Ho. destruct e as [|c e].
      * split_and!.
        -- split; [by vm_compute|]. by intros (? & [= <-] & [?|?]).
        -- split; [by right|done].
        -- split; [by vm_compute|]. by intros (? & [= <-] & ? & _).
      * split_and!.
        -- split; [by vm_compute|]. by intros (? & [= <-] & [?|?]).
        -- split; [by vm_compute|]. by intros [?|?].
        -- split; [|done]. intros _. by exists (c :: e).
  - split_and!.
    + split; [by vm_compute|]. by intros (? & ? & _).
    + split; [by left|done].
    + split; [by vm_compute|]. by intros (? & ? & _).
Qed.

Lemma replace_spec s pat rep :
  includes s pat = true →
  ∃ pre post, s = pre ++ pat ++ post
    ∧ replace s pat rep = pre ++ rep ++ post
    ∧ ∀ pre' post', s = pre' ++ pat ++ post' → length pre ≤ length pre'.
Proof.
  induction s as [|c s IH]; simpl.
  - rewrite orb_false_r. intros Hs. rewrite Hs.
    apply starts_with_spec in Hs as [post E]. exists [], post.
    split_and!; [done| |intros; simpl; lia].
    cbn [app]. f_equal. rewrite E at 1. by rewrite drop_app_length.
  - destruct (starts_with pat (c :: s)) eqn:Hs; cbn [orb].
    + intros _. apply starts_with_spec in Hs as [post E]. exists [], post.
      split_and!; [done| |intros; simpl; lia].
      cbn [app]. f_equal. rewrite E at 1. by rewrite drop_app_length.
    + intros Hin. destruct (IH Hin) as (pre & post & -> & Hr & Hmin).
      exists (c :: pre), post. split_and!; [done|by rewrite Hr|].
      intros [|c' pre'] post' E.
      * exfalso. assert (starts_with pat (c :: pre ++ pat ++ post) = true);
          [|congruence].
        apply starts_with_spec. by exists post'.
      * injection E as -> E. simpl. specialize (Hmin _ _ E). lia.
Qed.

(** X23. Without a session the agent sees a guest with no token. With a
    session, the user counts as a B2B customer exactly when the email is
    not empty and names neither internal domain; the display name of such
    a user is left as it is, while for an internal user the first
    "@okta.com" of the name is replaced by "@pledgerocket.com". *)
Theorem getAuth_user aud :
  (auth_userType (getAuth aud None) = str "Guest"
   ∧ auth_accessToken (getAuth aud None) = JNull
   ∧ isB2BCustomer (createUserContext (getAuth aud None)) = false)
  ∧ ∀ session,
      (isB2BCustomer (createUserContext (getAuth aud (Some session))) = true
       ↔ ∃ e, email (user session) = Some e ∧ e ≠ []
              ∧ ¬ occurs PLEDGEROCKET e ∧ ¬ occurs OKTA e)
      ∧ (internal (email (user session)) = false →
         auth_userName (getAuth aud (Some session))
         = of_option (name (user session)))
      ∧ (∀ n, internal (email (user session)) = true →
              name (user session) = Some n → occurs OKTA n →
              ∃ pre post, n = pre ++ OKTA ++ post
                ∧ auth_userName (getAuth aud (Some session))
                  = JStr (pre ++ PLEDGEROCKET ++ post)
                ∧ ∀ pre' post', n = pre' ++ OKTA ++ post' →
                                length pre ≤ length pre').
Proof.
  split; [by split_and!|]. intros session. split_and!.
  - cbn. rewrite bool_decide_eq_true.
    apply (getUserType_classes (email (user session))).
  - intros Hint. unfold getAuth. cbn [auth_userName]. rewrite Hint.
    by destruct (name (user session)).
  - intros n Hint Hn Hocc. unfold getAuth. cbn [auth_userName].
    rewrite Hint, Hn.
    apply includes_spec in Hocc. rewrite Hocc. cbn [andb].
    destruct (replace_spec n OKTA PLEDGEROCKET Hocc)
      as (pre & post & E & Hr & Hmin).
    exists pre, post. by rewrite Hr.
Qed.

Lemma for_audience_spec aud ts : for_audience aud ts = true ↔ held_for aud ts.
Proof.
  unfold for_audience, held_for. destruct (audience ts) eqn:E;
    try (split; [done|]; by intros [?|(? & ? & _)]).
  - rewrite bool_decide_eq_true. split; [by intros ->; left|].
    by intros [[= ->]|(? & ? & _)].
  - fold (ApiScope.includes xs (JStr aud)).
    rewrite ApiAuthMore.includes_elem_of by done. split.
    + intros Hin. right. by exists xs.
    + by intros [?|(? & [= <-] & ?)].
Qed.

(** X24. The access token the agent forwards is that of the first token
    set held for the tool server's audience, be the audience of the
    token set that string or an array containing it, and [undefined]
    when no token set is held for it. *)
Theorem getAuth_accessToken aud session :
  ((∀ ts, ts ∈ tokenSets session → ¬ held_for aud ts) →
   auth_accessToken (getAuth aud (Some session)) = JUndefined)
  ∧ (∀ before ts after,
       tokenSets session = before ++ ts :: after →
       (∀ ts', ts' ∈ before → ¬ held_for aud ts') → held_for aud ts →
       auth_accessToken (getAuth aud (Some session)) = accessToken ts).
Proof.
  cbn. split.
  - intros Hnone. destruct (find _ _) as [ts|] eqn:Hf; [|done].
    apply find_some in Hf as [Hin Hts].
    destruct (Hnone ts); [by apply list_elem_of_In|by apply for_audience_spec].
  - intros before ts after -> Hbefore Hts.
    induction before as [|b before IH]; cbn.
    + by rewrite (proj2 (for_audience_spec aud ts) Hts).
    + destruct (for_audience aud b) eqn:Hb.
      * destruct (Hbefore b); [by left|by apply for_audience_spec].
      * apply IH. intros ts' Hin. apply Hbefore. by right.
Qed.

End AgentUserFacts.

(* ===================================================================== *)
(** * Facts about the content of a response, and across the two hops *)
(* ===================================================================== *)

Module AgentResponseFacts.
Import Js Agent AgentResponse.

Lemma getAuth_user_witness :
  ∃ pre post,
    str "ana@okta.com" = pre ++ AgentUser.OKTA ++ post
    ∧ AgentUser.auth_userName
        (AgentUser.getAuth AgentSamples.mcp_audience (Some AgentSamples.session))
      = JStr (pre ++ AgentUser.PLEDGEROCKET ++ post).
Proof.
  destruct (AgentUserFacts.getAuth_user AgentSamples.mcp_audience) as [_ H].
  destruct (H AgentSamples.session) as (_ & _ & Hname).
  destruct (Hname (str "ana@okta.com") eq_refl eq_refl)
    as (pre & post & E & Hn & _).
  { by exists (str "ana"), []. }
  by exists pre, post.
Defined.

Lemma getAuth_accessToken_witness :
  AgentUser.auth_accessToken
    (AgentUser.getAuth AgentSamples.mcp_audience (Some AgentSamples.session))
  = JStr (str "t-mcp").
Proof.
  destruct (AgentUserFacts.getAuth_accessToken AgentSamples.mcp_audience
              AgentSamples.session) as [_ H].
  rewrite (H [AgentSamples.other_tokens] AgentSamples.mcp_tokens []);
    [done|done| |].
  - intros ts' ->%list_elem_of_singleton [E|(xs & E & _)]; by vm_compute in E.
  - right. eexists. split; [done|].
    apply list_elem_of_further, list_elem_of_here.
Defined.

Section Content.
Variable String_of : value → jsstring.

Local Abbreviation extractResponseText_of :=
  (extractResponseText_of String_of).
Local Abbreviation select_content := (select_content String_of).

End Content.


End AgentResponseFacts.

Module AcrossHops.
Import Js Eff McpServer McpClient.

(** X26. What the tool server wraps with [formatResult] the bridge
    unwraps: when the serialized data is a truthy text that parses back
    to the data, one call on a fresh bridge records exactly the truthy
    [_metadata.exchangedScopes] of the data, and records nothing when the
    data has none. *)
Theorem bridge_reads_server_envelope accessToken clock parse stringify data c :
  reply c = inr (formatResult stringify data) →
  truthy (stringify data) = true →
  parse (stringify data) = Some data →
  exchangedScopes (step accessToken clock parse initial c)
  = (if truthy (opt_get (opt_get data "_metadata") "exchangedScopes")
     then opt_get (opt_get data "_metadata") "exchangedScopes"
     else JNull).
Proof.
  intros Hreply Htext Hparse.
  rewrite McpClientFacts.step_exchangedScopes.
  cbn [initial exchangedScopes truthy].
  rewrite Hreply. unfold disclosure.
  assert (opt_get (opt_get0 (opt_get (formatResult stringify data) "content"))
            "text" = stringify data) as ->.
  { reflexivity. }
  rewrite Htext, Hparse. cbn.
  by destruct (truthy (opt_get _ "exchangedScopes")).
Qed.

Lemma bridge_reads_server_envelope_witness :
  exchangedScopes
    (step BridgeSamples.token BridgeSamples.clock
       (λ _, Some AgentSamples.disclosing_data) initial
       (BridgeSamples.call
          (inr (formatResult (λ _, JStr (str "{..}"))
                  AgentSamples.disclosing_data))))
  = JStr (str "tasks:read").
Proof.
  by rewrite (bridge_reads_server_envelope BridgeSamples.token
                BridgeSamples.clock _ (λ _, JStr (str "{..}"))
                AgentSamples.disclosing_data).
Defined.

End AcrossHops.

(* ===================================================================== *)
(** * Facts about the chat endpoint *)
(* ===================================================================== *)

Module ChatFacts.
Import Js Eff BridgeObs Chat.

Ltac run_chat :=
  unfold handleChat, finally, toolsCleanup, try_block, catch_block,
    handleUserCheck, getAuth, scopes_field, call, assign_cleanup, emit, gets,
    modify, try_catch, throw, mbind, M_bind, bind, mret, M_ret, ret;
  cbn.

Ltac walk :=
  repeat (case_match; simplify_eq/=).

Ltac close := walk; split_and?; (done || lia).

Local Arguments Js.str : simpl never.
Local Arguments Chat.constructor_of _ !error /.

Section Handler.
Variable AUTH_ENABLED : bool.
Variable MCP_AUTH0_AUDIENCE : jsstring.
Variable String_of : value → jsstring.
Variable inherited_constructor : gmap string value → value.

Local Abbreviation handleChat :=
  (handleChat AUTH_ENABLED MCP_AUTH0_AUDIENCE String_of inherited_constructor).

(** X27. On every path through [handleChat] the cleanup of the tools is
    called exactly once when the tools were created, as the last thing
    the handler does, and not at all when they were not; tools are
    created at most once. *)
Theorem handleChat_cleans_up_once ext :
  let t := trace (fst (handleChat ext start)) in
  cleanups t
  = (if bool_decide (creations t ≠ []) && BridgeObs.resolved (createTools ext)
     then [ToolsCleanup] else [])
  ∧ length (creations t) ≤ 1
  ∧ (cleanups t ≠ [] → last t = Some ToolsCleanup).
Proof.
  destruct ext as [j s n m c o a mu r ma]. run_chat.
  destruct j as [?|parsed]; cbn; [close|].
  destruct (nullish parsed); cbn; [close|].
  destruct (truthy _) eqn:Hmsg; cbn; [|close].
  destruct (is_check_user _) eqn:Hchk; cbn; [close|].
  destruct n as [?|reqId]; cbn; [close|].
  destruct s as [?|session]; cbn; [close|].
  destruct m as [?|[]]; cbn; [close|].
  destruct c as [?|tools]; cbn; [close|].
  destruct tools as [k gm tc mc cl];
    destruct cl as [?|[]], o as [?|[]]; cbn; try close.
  all: destruct a as [?|[]]; cbn; try close.
  all: destruct mu as [?|[]]; cbn; try close.
  all: destruct r as [?|response]; cbn; try close.
  all: destruct ma as [?|[]]; cbn; try close.
  all: destruct gm as [?|meta]; cbn; try close.
  all: destruct (nullish meta); cbn; try close.
Qed.

Lemma catch_block_throws error w :
  nullish error = true
  ∨ nullish (constructor_of inherited_constructor error) = true →
  catch_block inherited_constructor error w = (w, inl (JStr (str "TypeError"))).
Proof.
  unfold catch_block. intros [->| ->]; [done|]. by destruct (nullish error).
Qed.

(** X28. When its collaborators fail only with errors whose [message]
    and [constructor.name] can be read, [handleChat] answers with status
    200, 400 or 500, and a 500 carries nothing but the fixed apology; the
    only errors it lets through are those of the tools' cleanup and of
    the session lookup of a user check. When the [try] block fails with
    any other value, the [catch] block throws while it builds the log
    entry, and [handleChat] fails with that [TypeError], or with the
    error of the tools' cleanup. *)
Theorem handleChat_contains_errors ext :
  (proper inherited_constructor ext →
   match snd (handleChat ext start) with
   | inr response =>
       status response = 200%Z ∨ status response = 400%Z
       ∨ (status response = 500%Z
          ∧ body response = JObj {[ "error" := JStr (str GENERIC_ERROR) ]})
   | inl error =>
       (∃ tools, createTools ext = inr tools ∧ cleanup tools = inl error)
       ∨ (getSession ext = inl error
          ∧ ∃ parsed, req_json ext = inr parsed
              ∧ is_check_user (get parsed "message") = true)
   end)
  ∧ (∀ w error,
       try_block AUTH_ENABLED MCP_AUTH0_AUDIENCE String_of ext start
       = (w, inl error) →
       nullish error = true
       ∨ nullish (constructor_of inherited_constructor error) = true →
       ∃ raised, snd (handleChat ext start) = inl raised
         ∧ (raised = JStr (str "TypeError")
            ∨ ∃ tools, createTools ext = inr tools
                ∧ cleanup tools = inl raised)).
Proof.
  split.
  2:{ intros w error Htry Hodd.
      unfold Chat.handleChat, finally, try_catch, mbind, M_bind, bind.
      rewrite Htry, (catch_block_throws _ _ Hodd).
      unfold toolsCleanup, call, emit, gets, modify, throw, mbind, M_bind,
        bind, mret, M_ret, ret. cbn.
      destruct (assigned w); cbn; [|eauto].
      destruct (createTools ext) as [?|tools]; cbn; [eauto|].
      destruct (cleanup tools) as [?|[]] eqn:Hcl; cbn; eauto 10. }
  destruct ext as [j s n m c o a mu r ma].
  intros (Hj & Hs & Hn & Hm & Hc & Ho & Ha & Hmu & Hr & Hma & Hgm).
  cbn in Hj, Hs, Hn, Hm, Hc, Ho, Ha, Hmu, Hr, Hma, Hgm.
  run_chat.
  destruct j as [?|parsed]; cbn; [destruct Hj as [-> ->]; cbn; solve [auto 10]|].
  destruct (nullish parsed); cbn; [solve [auto 10]|].
  destruct (truthy _) eqn:Hmsg; cbn; [|solve [auto 10]].
  destruct (is_check_user _) eqn:Hchk; cbn.
  { destruct s as [?|session]; cbn; [|solve [auto 10]]. right. eauto. }
  destruct n as [?|reqId]; cbn; [destruct Hn as [-> ->]; cbn; solve [auto 10]|].
  destruct s as [?|session]; cbn; [destruct Hs as [-> ->]; cbn; solve [auto 10]|].
  destruct m as [?|[]]; cbn; [destruct Hm as [-> ->]; cbn; solve [auto 10]|].
  destruct c as [?|tools]; cbn; [destruct Hc as [-> ->]; cbn; solve [auto 10]|].
  destruct tools as [k gm tc mc cl]. cbn in Hgm.
  destruct o as [?|[]]; cbn;
    [destruct Ho as [-> ->]; cbn; destruct cl as [?|[]]; cbn; solve [eauto 10]|].
  destruct a as [?|[]]; cbn;
    [destruct Ha as [-> ->]; cbn; destruct cl as [?|[]]; cbn; solve [eauto 10]|].
  destruct mu as [?|[]]; cbn;
    [destruct Hmu as [-> ->]; cbn; destruct cl as [?|[]]; cbn; solve [eauto 10]|].
  destruct r as [?|response]; cbn;
    [destruct Hr as [-> ->]; cbn; destruct cl as [?|[]]; cbn; solve [eauto 10]|].
  destruct ma as [?|[]]; cbn;
    [destruct Hma as [-> ->]; cbn; destruct cl as [?|[]]; cbn; solve [eauto 10]|].
  destruct gm as [?|meta]; cbn;
    [destruct Hgm as [-> ->]; cbn; destruct cl as [?|[]]; cbn; solve [eauto 10]|].
  destruct (nullish meta); cbn; [destruct cl as [?|[]]; cbn; solve [eauto 10]|].
  destruct (truthy (get meta "exchangedScopes")); cbn;
    [destruct (split_value _); cbn|];
    destruct cl as [?|[]]; cbn; solve [eauto 10].
Qed.

(** X29. A request whose body has no truthy [message] is answered with
    status 400 and "Message is required" before any collaborator other
    than the body parser is touched: no session is looked up, no tools
    are created and nothing is cleaned up. *)
Theorem handleChat_requires_message ext parsed :
  req_json ext = inr parsed → nullish parsed = false →
  truthy (get parsed "message") = false →
  handleChat ext start
  = ({| trace := [ReqJson]; assigned := false |},
     inr (json (JObj {[ "error" := JStr (str "Message is required") ]}) 400)).
Proof.
  intros Hj Hn Hm. run_chat. rewrite Hj. cbn. rewrite Hn. cbn.
  by rewrite Hm.
Qed.

(** X30. When every collaborator succeeds, [handleChat] stores the user
    message before it runs the agent, stores the normalized response text
    after it, cleans up last, and answers with status 200: the
    [response] of the payload is the normalized text, [metadata.scopes]
    are the pieces of the exchanged-scopes string split at spaces (none
    when nothing was exchanged), and [metadata.tokenHint] is the user's
    whole access token (null without one). *)
Theorem handleChat_success ext parsed session reqId tools response meta :
  req_json ext = inr parsed → nullish parsed = false →
  truthy (get parsed "message") = true →
  is_check_user (get parsed "message") = false →
  newRequest ext = inr reqId → getSession ext = inr session →
  getMemory ext = inr tt → createTools ext = inr tools →
  openai ext = inr tt → agent ext = inr tt →
  memory_add_user ext = inr tt → run ext = inr response →
  memory_add_assistant ext = inr tt →
  getMetadata tools = inr meta → nullish meta = false →
  cleanup tools = inr tt →
  (truthy (get meta "exchangedScopes") = true →
   is_string (get meta "exchangedScopes") = true) →
  let auth := AgentUser.getAuth MCP_AUTH0_AUDIENCE session in
  let message := get parsed "message" in
  let text := AgentResponse.extractResponseText_of String_of response in
  ∃ w payload asked,
    handleChat ext start = (w, inr (json (JObj payload) 200))
    ∧ trace w
      = [ReqJson; NewRequest; GetSession; LogInfo "USER:";
         GetMemory (js_or (AgentUser.auth_userId auth) (JStr (str "anonymous")));
         CreateTools (AgentUser.auth_accessToken auth); NewLlm;
         NewAgent (bool_decide (0 < tools_count tools));
         MemoryAdd "user" message; AgentRun asked;
         MemoryAdd "assistant" (JStr (String_of text)); GetMetadata;
         ToolsCleanup]
    ∧ (AUTH_ENABLED && truthy (AgentUser.auth_userId auth) = false →
       asked = message)
    ∧ payload !! "response" = Some text
    ∧ get (get (JObj payload) "metadata") "tokenHint"
      = js_or (AgentUser.auth_accessToken auth) JNull
    ∧ get (get (JObj payload) "metadata") "scopes"
      = match get meta "exchangedScopes" with
        | JStr (c :: s) => JArr (JStr <$> split (c :: s) SPACE)
        | _ => JArr []
        end.
Proof.
  intros Hj Hnp Hm Hchk Hn Hs Hmem Hc Ho Ha Hmu Hr Hma Hgm Hnm Hcl Hes
    auth message text.
  run_chat. rewrite Hj. cbn. rewrite Hnp. cbn. rewrite Hm. cbn.
  rewrite Hchk. cbn. rewrite Hn. cbn. rewrite Hs. cbn. rewrite Hmem. cbn.
  rewrite Hc. cbn. rewrite Ho. cbn. rewrite Ha. cbn. rewrite Hmu. cbn.
  rewrite Hr. cbn. rewrite Hma. cbn. rewrite Hgm. cbn. rewrite Hnm. cbn.
  fold auth message text.
  destruct (truthy (get meta "exchangedScopes")) eqn:Ht; cbn.
  - specialize (Hes eq_refl).
    destruct (get meta "exchangedScopes") as [| | | |[|c es]| | |];
      try done.
    cbn. rewrite Hcl. cbn. eexists _, _, _. split; [reflexivity|].
    split_and!; try reflexivity. by destruct (AUTH_ENABLED && _).
  - rewrite Hcl. cbn. eexists _, _, _. split; [reflexivity|].
    split_and!; try reflexivity; [by destruct (AUTH_ENABLED && _)|].
    transitivity (JArr []); [reflexivity|].
    by destruct (get meta "exchangedScopes") as [| | | |[|c es]| | |].
Qed.
End Handler.

Lemma handleChat_contains_errors_witness :
  let response := json (JObj {[ "error" := JStr (str GENERIC_ERROR) ]}) 500 in
  status response = 200%Z ∨ status response = 400%Z
  ∨ (status response = 500%Z
     ∧ body response = JObj {[ "error" := JStr (str GENERIC_ERROR) ]}).
Proof.
  assert (proper AgentSamples.ordinary AgentSamples.chat_run_fails) as Hp
    by (by repeat split).
  exact (proj1 (handleChat_contains_errors true AgentSamples.mcp_audience
                  ToolSamples.String_of AgentSamples.ordinary
                  AgentSamples.chat_run_fails) Hp).
Defined.

(** An agent run that fails with an error whose [constructor] is [null]:
    the [catch] block throws on [error.constructor.name], the tools are
    still cleaned up, and the [TypeError] reaches the caller. *)
Example handleChat_throws_on_odd_error :
  handleChat true AgentSamples.mcp_audience ToolSamples.String_of
    AgentSamples.ordinary AgentSamples.chat_run_fails_oddly start
  = ({| trace :=
          [ReqJson; NewRequest; GetSession; LogInfo "USER:";
           GetMemory (JStr (str "auth0|u1"));
           CreateTools (JStr (str "t-mcp")); NewLlm; NewAgent true;
           MemoryAdd "user" (JStr (str "list my tasks"));
           AgentRun (JStr (str "[User: " ++ ToolSamples.String_of
                                 (JStr (str "auth0|u1"))
                               ++ str "] " ++ ToolSamples.String_of
                                 (JStr (str "list my tasks"))));
           ToolsCleanup];
        assigned := true |},
     inl (JStr (str "TypeError"))).
Proof. by vm_compute. Qed.

Lemma handleChat_requires_message_witness :
  handleChat true AgentSamples.mcp_audience ToolSamples.String_of
    AgentSamples.ordinary AgentSamples.chat_empty start
  = ({| trace := [ReqJson]; assigned := false |},
     inr (json (JObj {[ "error" := JStr (str "Message is required") ]}) 400)).
Proof.
  by apply (handleChat_requires_message true AgentSamples.mcp_audience
              ToolSamples.String_of AgentSamples.ordinary
              AgentSamples.chat_empty (JObj ∅)).
Defined.

Lemma handleChat_success_witness :
  ∃ w payload,
    handleChat true AgentSamples.mcp_audience ToolSamples.String_of
      AgentSamples.ordinary AgentSamples.chat_ok start
    = (w, inr (json (JObj payload) 200))
    ∧ payload !! "response" = Some (JStr (str "Done."))
    ∧ get (get (JObj payload) "metadata") "scopes"
      = JArr [JStr (str "tasks:read"); JStr (str "tasks:write")]
    ∧ get (get (JObj payload) "metadata") "tokenHint" = JStr (str "t-mcp").
Proof.
  destruct (handleChat_success true AgentSamples.mcp_audience
              ToolSamples.String_of AgentSamples.ordinary AgentSamples.chat_ok
              (JObj {[ "message" := JStr (str "list my tasks") ]})
              (Some AgentSamples.session) (JStr (str "req-1"))
              AgentSamples.chat_tools
              (AgentSamples.framework_response (str "Done.Done."))
              (JObj {[ "exchangedScopes" := JStr (str "tasks:read tasks:write");
                       "tokenExchangeTime" := JNum 5 ]}))
    as (w & payload & asked & E & _ & _ & Hresp & Hhint & Hscopes);
    try reflexivity.
  exists w, payload. split_and!; [done| | |].
  - rewrite Hresp. by vm_compute.
  - rewrite Hscopes. by vm_compute.
  - rewrite Hhint. by vm_compute.
Defined.

End ChatFacts.
